(** * Run-state synchronisation of the earnings-call web client

    A shallow embedding of the client code that keeps a run's status, log
    and result rows in step with the server:

    - [api.ts]: [handle], [clearHistory];
    - [pages/RunDetail.tsx]: the [poll] cycle, its log updater, the
      [useEffect] that owns the interval, and the progress and
      knowledge-graph projections of the render function;
    - [pages/Dashboard.tsx]: the clear-history click handler.

    React state is modelled by explicit records, a setter call by a value of
    an update type, an asynchronous cycle by the moment its promise settles. *)

From Stdlib Require Import String Ascii Bool Arith ZArith NArith QArith Qminmax Lia List.
Import ListNotations.
Close Scope Q_scope.

(** ** The parts of the JavaScript platform the code relies on *)

Module JS.

(** A JavaScript string is a finite sequence of UTF-16 code units. *)
Definition code_unit := N.
Definition jsstring := list code_unit.

(** Source literals are ASCII; [lit] gives their code units. *)
Definition lit (s : string) : jsstring :=
  map N_of_ascii (list_ascii_of_string s).

(** The line feed, written ["\n"] in the source language. *)
Definition LF : jsstring := [10%N].

Definition jsstring_dec : forall a b : jsstring, {a = b} + {a <> b} :=
  list_eq_dec N.eq_dec.

(** [a === b] on strings. *)
Definition strict_eq (a b : jsstring) : bool :=
  if jsstring_dec a b then true else false.

(** [s.length]. *)
Definition str_length (s : jsstring) : nat := List.length s.

(** ToBoolean on a string: only the empty string is falsy. *)
Definition truthy (s : jsstring) : bool :=
  match s with [] => false | _ :: _ => true end.

(** ToBoolean on an optional string ([undefined] and [null] are falsy). *)
Definition truthy_opt (o : option jsstring) : bool :=
  match o with None => false | Some s => truthy s end.

(** [a || b] on strings. *)
Definition or_else (a b : jsstring) : jsstring :=
  if truthy a then a else b.

(** [a ?? b]. *)
Definition nullish {A : Type} (a : option A) (b : A) : A :=
  match a with Some x => x | None => b end.

(** [String.prototype.startsWith(searchString)] with the default position
    0, following the steps of the language standard: an empty search
    string matches, a search string longer than the receiver does not,
    otherwise the code units of the leading substring are compared. *)
Definition startsWith (s searchString : jsstring) : bool :=
  let len := str_length s in
  let searchLength := str_length searchString in
  if Nat.eqb searchLength 0 then true
  else if Nat.ltb len searchLength then false
  else strict_eq (firstn searchLength s) searchString.

(** [String.prototype.slice(start)] for a non-negative [start]: the code
    units from [min(start, length)] to the end. *)
Definition slice (s : jsstring) (start : nat) : jsstring :=
  skipn (Nat.min start (str_length s)) s.

(** How a promise settles. *)
Inductive Settled (A : Type) : Type :=
| Fulfilled (value : A)
| Rejected (message : jsstring).
Arguments Fulfilled {A} value.
Arguments Rejected {A} message.

(** A request together with the instant at which it settles. *)
Record Timed (A : Type) : Type := { settled_at : nat; outcome : Settled A }.
Arguments Build_Timed {A} settled_at outcome.
Arguments settled_at {A} t.
Arguments outcome {A} t.

Definition rejection {A : Type} (p : Timed A) : option (nat * jsstring) :=
  match outcome p with
  | Fulfilled _ => None
  | Rejected m => Some (settled_at p, m)
  end.

(** Of two rejections the earlier one wins; on a tie, the one listed
    first. *)
Definition earlier (x y : option (nat * jsstring)) : option (nat * jsstring) :=
  match x, y with
  | None, _ => y
  | _, None => x
  | Some (tx, _), Some (ty, _) => if Nat.leb tx ty then x else y
  end.

(** [Promise.all([a, b, c])]: fulfilled with the three values when all
    three are, rejected with the reason of the first promise to reject
    otherwise. *)
Definition promise_all {A B C : Type}
    (a : Timed A) (b : Timed B) (c : Timed C) : Settled (A * B * C) :=
  match earlier (rejection a) (earlier (rejection b) (rejection c)) with
  | Some (_, m) => Rejected m
  | None =>
      match outcome a, outcome b, outcome c with
      | Fulfilled x, Fulfilled y, Fulfilled z => Fulfilled (x, y, z)
      | _, _, _ => Rejected []
      end
  end.

End JS.

Import JS.

(** ** api.ts *)

Module Api.

(** The part of a [Response] that [handle] reads. *)
Record Response (T : Type) : Type := {
  ok : bool;
  text : jsstring;
  statusText : jsstring;
  json : Settled T
}.
Arguments Build_Response {T} ok text statusText json.
Arguments ok {T} r.
Arguments text {T} r.
Arguments statusText {T} r.
Arguments json {T} r.

(** [handle]: a response that is not ok throws
    [new Error(payload || resp.statusText)]. *)
Definition handle {T : Type} (resp : Response T) : Settled T :=
  if ok resp then json resp
  else Rejected (or_else (text resp) (statusText resp)).

(** [clearHistory]: [fetch] itself may reject; its response goes through
    [handle]. *)
Definition clearHistory {T : Type} (fetched : Settled (Response T)) : Settled T :=
  match fetched with
  | Fulfilled resp => handle resp
  | Rejected m => Rejected m
  end.

End Api.

(** ** types.ts *)

Record RunConfig : Type := {
  data_file : jsstring;
  sector_map : jsstring;
  max_workers : Z;
  chunk_size : Z;
  timeout : Z
}.

Record RunRecord : Type := {
  run_id : jsstring;
  config : option RunConfig;
  status : jsstring;
  created_at : Z;
  finished_at : option Z;
  total_rows : option Z;
  completed_rows : Z;
  results_csv : option jsstring;
  kg_path : option jsstring;
  run_error : option jsstring
}.

(** Numbers of a result row are kept as rationals; the code only stores and
    displays them. *)
Record RunResultRow : Type := {
  ticker : jsstring;
  quarter : jsstring;
  predicted_direction : jsstring;
  direction_score : Q + jsstring;
  actual_return : option Q;
  row_error : option jsstring
}.

(** The payloads of [fetchRun] and [fetchLog]: [{ run: RunRecord }] and
    [{ log: string }]. *)
Module Payload.
Record RunResp : Type := { run : RunRecord }.
Record LogResp : Type := { log : jsstring }.
End Payload.

(** ** The [<progress>] element

    The element derives its position from its [value] and [max]
    attributes as the HTML standard prescribes: without a [value] the bar
    is indeterminate; a [max] that is missing or not positive counts as 1;
    the current value is capped at the maximum and floored at 0. *)

Module DOM.

Record ProgressProps : Type := { value : option Z; max : option Z }.

Definition maximum_value (p : ProgressProps) : Z :=
  match max p with
  | Some m => if (0 <? m)%Z then m else 1%Z
  | None => 1%Z
  end.

Definition current_value (p : ProgressProps) (v : Z) : Z :=
  if (maximum_value p <? v)%Z then maximum_value p
  else if (v <? 0)%Z then 0%Z
  else v.

(** [None] is the indeterminate bar, [Some q] a bar filled to [q]. *)
Definition position (p : ProgressProps) : option Q :=
  match value p with
  | None => None
  | Some v => Some (inject_Z (current_value p v) / inject_Z (maximum_value p))%Q
  end.

End DOM.

(** ** pages/RunDetail.tsx *)

Module RunDetail.

(** The five [useState] cells of the component. *)
Record State : Type := {
  run : option RunRecord;
  results : list RunResultRow;
  logText : jsstring;
  error : option jsstring;
  kgUrl : jsstring
}.

Definition initial : State :=
  {| run := None; results := []; logText := []; error := None; kgUrl := [] |}.

(** The updater handed to [setLogText], with [incoming = logResp.log]:
    [prev => incoming.startsWith(prev)
               ? prev + incoming.slice(prev.length) : incoming]. *)
Definition reconcile (prev incoming : jsstring) : jsstring :=
  if startsWith incoming prev
  then prev ++ slice incoming (str_length prev)
  else incoming.

(** *** One poll cycle *)

(** What the three requests of a cycle deliver. *)
Definition Fetched : Type :=
  (Payload.RunResp * Payload.LogResp * list RunResultRow)%type.

(** A call of one of the state setters. *)
Inductive Update : Type :=
| SetRun (r : option RunRecord)
| SetKgUrl (url : jsstring)
| SetLogText (updater : jsstring -> jsstring)
| SetResults (rows : list RunResultRow)
| SetError (message : option jsstring).

Definition apply_update (s : State) (u : Update) : State :=
  match u with
  | SetRun r =>
      {| run := r; results := results s; logText := logText s;
         error := error s; kgUrl := kgUrl s |}
  | SetKgUrl url =>
      {| run := run s; results := results s; logText := logText s;
         error := error s; kgUrl := url |}
  | SetLogText updater =>
      {| run := run s; results := results s; logText := updater (logText s);
         error := error s; kgUrl := kgUrl s |}
  | SetResults rows =>
      {| run := run s; results := rows; logText := logText s;
         error := error s; kgUrl := kgUrl s |}
  | SetError message =>
      {| run := run s; results := results s; logText := logText s;
         error := message; kgUrl := kgUrl s |}
  end.

Definition apply_updates (us : list Update) (s : State) : State :=
  fold_left apply_update us s.

(** What [poll] has captured from the render in which its effect ran. *)
Record Closure : Type := { c_runId : jsstring; c_kgUrl : jsstring }.

(** The template literal [`/api/runs/${runId}/kg`]. *)
Definition kg_endpoint (runId : jsstring) : jsstring :=
  lit "/api/runs/" ++ runId ++ lit "/kg".

(** The setter calls [poll] makes once [Promise.all] has settled: the
    body of [try] when it is fulfilled, of [catch] when it is rejected. *)
Definition poll (cl : Closure) (settled : Settled Fetched) : list Update :=
  match settled with
  | Fulfilled (runResp, logResp, resultResp) =>
      [SetRun (Some (Payload.run runResp))]
      ++ (if truthy_opt (kg_path (Payload.run runResp))
             && negb (truthy (c_kgUrl cl))
          then [SetKgUrl (kg_endpoint (c_runId cl))]
          else [])
      ++ [SetLogText (fun prev => reconcile prev (Payload.log logResp));
          SetResults resultResp]
  | Rejected m => [SetError (Some m)]
  end.

Definition commit (cl : Closure) (settled : Settled Fetched) (s : State) : State :=
  apply_updates (poll cl settled) s.

(** A run of cycles that all succeed, applied in order. *)
Definition run_cycles (cycles : list (Closure * Fetched)) (s : State) : State :=
  fold_left (fun acc c => commit (fst c) (Fulfilled (snd c)) acc) cycles s.

(** The log snapshot a successful cycle fetched. *)
Definition snapshot (c : Closure * Fetched) : jsstring :=
  Payload.log (snd (fst (snd c))).

(** Each snapshot is a prefix of the next. *)
Fixpoint prefix_chain (ls : list jsstring) : Prop :=
  match ls with
  | a :: (b :: _) as rest => startsWith b a = true /\ prefix_chain rest
  | _ => True
  end.

(** *** The effect that owns the interval *)

(** The dependency array [[runId, kgUrl]]. *)
Definition Deps : Type := (option jsstring * jsstring)%type.

Definition deps_eqb (a b : Deps) : bool :=
  match fst a, fst b with
  | Some x, Some y => strict_eq x y
  | None, None => true
  | _, _ => false
  end && strict_eq (snd a) (snd b).

Record Component : Type := {
  mounted : bool;
  runId : option jsstring;       (* what [useParams] yields *)
  state : State;
  deps : Deps;                   (* dependencies of the last effect run *)
  timer : option Closure;        (* the live interval and its [poll] *)
  inflight : list Closure        (* polls waiting on [Promise.all] *)
}.

Definition current_deps (c : Component) : Deps := (runId c, kgUrl (state c)).

(** Cleanup of the previous effect run ([clearInterval]) followed by the
    effect body: return at once without a run id, otherwise one immediate
    [poll()] and a fresh interval. *)
Definition effect (c : Component) : Component :=
  match runId c with
  | Some id =>
      if truthy id then
        let cl := {| c_runId := id; c_kgUrl := kgUrl (state c) |} in
        {| mounted := mounted c; runId := runId c; state := state c;
           deps := current_deps c; timer := Some cl;
           inflight := inflight c ++ [cl] |}
      else
        {| mounted := mounted c; runId := runId c; state := state c;
           deps := current_deps c; timer := None; inflight := inflight c |}
  | None =>
      {| mounted := mounted c; runId := runId c; state := state c;
         deps := current_deps c; timer := None; inflight := inflight c |}
  end.

(** After a render the effect runs again when a dependency has changed. *)
Definition render (c : Component) : Component :=
  if deps_eqb (deps c) (current_deps c) then c else effect c.

Definition mount (id : option jsstring) : Component :=
  effect {| mounted := true; runId := id; state := initial;
            deps := (id, []); timer := None; inflight := [] |}.

Definition remove_nth {A : Type} (i : nat) (l : list A) : list A :=
  firstn i l ++ skipn (S i) l.

Inductive Event : Type :=
| Tick                                       (* the interval fires *)
| Settle (i : nat) (settled : Settled Fetched) (* the i-th poll in flight resumes *)
| Route (id : option jsstring)               (* the route's run id changes *)
| Unmount.                                   (* the component goes away *)

(** React drops the updates of a component that is no longer mounted. *)
Definition step (c : Component) (e : Event) : Component :=
  match e with
  | Tick =>
      match timer c with
      | Some cl =>
          {| mounted := mounted c; runId := runId c; state := state c;
             deps := deps c; timer := timer c; inflight := inflight c ++ [cl] |}
      | None => c
      end
  | Settle i settled =>
      match nth_error (inflight c) i with
      | Some cl =>
          if mounted c then
            render {| mounted := true; runId := runId c;
                      state := commit cl settled (state c);
                      deps := deps c; timer := timer c;
                      inflight := remove_nth i (inflight c) |}
          else
            {| mounted := false; runId := runId c; state := state c;
               deps := deps c; timer := timer c;
               inflight := remove_nth i (inflight c) |}
      | None => c
      end
  | Route id =>
      if mounted c then
        render {| mounted := true; runId := id; state := state c;
                  deps := deps c; timer := timer c; inflight := inflight c |}
      else c
  | Unmount =>
      {| mounted := false; runId := runId c; state := state c;
         deps := deps c; timer := None; inflight := inflight c |}
  end.

Definition exec (c : Component) (es : list Event) : Component :=
  fold_left step es c.

(** *** What the render function derives from the run record *)

(** [{run.completed_rows}/{run.total_rows ?? '?'}]. *)
Definition progress_text (r : RunRecord) : Z * (Z + jsstring) :=
  (completed_rows r,
   nullish (option_map (@inl Z jsstring) (total_rows r)) (inr (lit "?"))).

(** [<progress value={run.completed_rows} max={run.total_rows ?? 1} />]. *)
Definition progress_props (r : RunRecord) : DOM.ProgressProps :=
  {| DOM.value := Some (completed_rows r);
     DOM.max := Some (nullish (total_rows r) 1%Z) |}.

Definition progress_fraction (r : RunRecord) : option Q :=
  DOM.position (progress_props r).

(** [run && (run.kg_path || run.status === 'running')]. *)
Definition kg_available (r : option RunRecord) : bool :=
  match r with
  | None => false
  | Some r => truthy_opt (kg_path r) || strict_eq (status r) (lit "running")
  end.

Inductive KgSection : Type :=
| KgFrame (src : jsstring)    (* the iframe *)
| KgLoading                   (* generated, not loaded yet *)
| KgNone.                     (* no graph yet *)

Definition kg_section (s : State) : KgSection :=
  if kg_available (run s)
  then (if truthy (kgUrl s) then KgFrame (kgUrl s) else KgLoading)
  else KgNone.

End RunDetail.

(** ** pages/Dashboard.tsx *)

Module Dashboard.

Record State : Type := {
  runs : list RunRecord;
  selectedDataset : jsstring;
  loading : bool;
  error : option jsstring
}.

Inductive Update : Type :=
| SetRuns (rs : list RunRecord)
| SetError (message : option jsstring).

Definition apply_update (s : State) (u : Update) : State :=
  match u with
  | SetRuns rs =>
      {| runs := rs; selectedDataset := selectedDataset s;
         loading := loading s; error := error s |}
  | SetError message =>
      {| runs := runs s; selectedDataset := selectedDataset s;
         loading := loading s; error := message |}
  end.

Definition apply_updates (us : list Update) (s : State) : State :=
  fold_left apply_update us s.

(** The click handler of the clear-history button:
    [setError(null); try { await clearHistory(); setRuns([]); }
     catch (err) { setError(err.message); }]. *)
Definition clear_click {T : Type} (settled : Settled T) : list Update :=
  SetError None ::
  match settled with
  | Fulfilled _ => [SetRuns []]
  | Rejected m => [SetError (Some m)]
  end.

Definition clear_history {T : Type}
    (fetched : Settled (Api.Response T)) (s : State) : State :=
  apply_updates (clear_click (Api.clearHistory fetched)) s.

End Dashboard.

Import RunDetail.

(** ** Notions used to state the properties *)

(** The components a sequence of events can produce from a fresh mount. *)
Definition reachable (c : Component) : Prop :=
  exists (id : option jsstring) (es : list Event), c = exec (mount id) es.

(** The closure and interval an effect run with dependencies [d] sets up. *)
Definition effect_timer (d : Deps) : option Closure :=
  match fst d with
  | Some id => if truthy id then Some {| c_runId := id; c_kgUrl := snd d |} else None
  | None => None
  end.

(** The live interval is the one the last effect run set up, and that run
    saw the current dependencies; an unmounted component has no interval. *)
Definition synced (c : Component) : Prop :=
  if mounted c
  then deps c = current_deps c /\ timer c = effect_timer (deps c)
  else timer c = None.

Definition with_log (s : State) (l : jsstring) : State :=
  {| run := run s; results := results s; logText := l;
     error := error s; kgUrl := kgUrl s |}.

(** A replacement is exposed to the consumer when the state the cycle
    publishes differs from the state the same responses publish over any
    buffer they merely extend. *)
Definition anomaly_exposed (cl : Closure) (f : Fetched) (s : State) : Prop :=
  forall prev' : jsstring,
    startsWith (snapshot (cl, f)) prev' = true ->
    commit cl (Fulfilled f) s <> commit cl (Fulfilled f) (with_log s prev').

Definition is_rejected {A : Type} (p : Timed A) : Prop :=
  exists m, outcome p = Rejected m.

(** The message [m] is the reason of one of the rejected requests. *)
Definition reason_of_one {A B C : Type}
    (a : Timed A) (b : Timed B) (c : Timed C) (m : jsstring) : Prop :=
  outcome a = Rejected m \/ outcome b = Rejected m \/ outcome c = Rejected m.

(** A poll that was in flight when [cancel] came leaves the state as
    [cancel] left it, however it settles. *)
Definition discards_after (c : Component) (cancel : Event) : Prop :=
  forall (i : nat) (cl : Closure) (settled : Settled Fetched),
    nth_error (inflight c) i = Some cl ->
    state (step (step c cancel) (Settle i settled)) = state (step c cancel).

(** What holds of every component of a view whose run id stays [id]. *)
Definition keyed_by (id : jsstring) (c : Component) : Prop :=
  runId c = Some id
  /\ (kgUrl (state c) = [] \/ kgUrl (state c) = kg_endpoint id)
  /\ Forall (fun cl => c_runId cl = id) (inflight c)
  /\ (forall cl, timer c = Some cl -> c_runId cl = id).

Definition is_route (e : Event) : bool :=
  match e with Route _ => true | _ => false end.

Definition sets_kgUrl (u : Update) : bool :=
  match u with SetKgUrl _ => true | _ => false end.

(** A fraction clamped to the unit interval. *)
Definition clamp01 (q : Q) : Q := Qmax 0 (Qmin 1 q).

(** *** Sample data *)

Module Sample.

Definition record (id st : jsstring) (total : option Z) (completed : Z)
    (kg : option jsstring) : RunRecord :=
  {| run_id := id; config := None; status := st; created_at := 0;
     finished_at := None; total_rows := total; completed_rows := completed;
     results_csv := None; kg_path := kg; run_error := None |}.

Definition A : jsstring := lit "A".
Definition B : jsstring := lit "B".

Definition queued : RunRecord := record A (lit "queued") None 0 None.
Definition running : RunRecord := record A (lit "running") (Some 100%Z) 40 None.
Definition overshoot : RunRecord := record A (lit "running") (Some 100%Z) 120 None.
Definition empty_total : RunRecord := record A (lit "running") (Some 0%Z) 3 None.
Definition blank_kg : RunRecord := record A (lit "completed") (Some 100%Z) 100 (Some []).
Definition with_kg : RunRecord :=
  record A (lit "completed") (Some 100%Z) 100 (Some (lit "kg/A.html")).

Definition closureA : Closure := {| c_runId := A; c_kgUrl := [] |}.

Definition fetched (r : RunRecord) (l : jsstring) : Fetched :=
  ({| Payload.run := r |}, {| Payload.log := l |}, []).

Definition cycle (l : jsstring) : Closure * Fetched := (closureA, fetched running l).

Definition line1 : jsstring := lit "line1" ++ LF.
Definition line2 : jsstring := lit "line2" ++ LF.
Definition line3 : jsstring := lit "line3" ++ LF.

Definition scenarioA : list (Closure * Fetched) :=
  [cycle line1; cycle (line1 ++ line2); cycle (line1 ++ line2 ++ line3)].

Definition with_kg_B : RunRecord :=
  record B (lit "completed") (Some 100%Z) 100 (Some (lit "kg/B.html")).

Definition dashboard : Dashboard.State :=
  {| Dashboard.runs := [running; with_kg]; Dashboard.selectedDataset := [];
     Dashboard.loading := false; Dashboard.error := None |}.

Definition server_error : Settled (Api.Response unit) :=
  Fulfilled {| Api.ok := false; Api.text := [];
               Api.statusText := lit "Internal Server Error";
               Api.json := Rejected [] |}.

Definition cleared : Settled (Api.Response unit) :=
  Fulfilled {| Api.ok := true; Api.text := lit "{}";
               Api.statusText := lit "OK"; Api.json := Fulfilled tt |}.

Definition at_ {T : Type} (t : nat) (o : Settled T) : Timed T :=
  {| settled_at := t; outcome := o |}.

(** A cycle whose log request is answered with a server error. *)
Definition failing : Settled Fetched :=
  promise_all (at_ 2 (Fulfilled {| Payload.run := running |}))
              (at_ 1 (Rejected (lit "Internal Server Error")))
              (at_ 3 (Fulfilled (@nil RunResultRow))).

Definition succeeding : Settled Fetched :=
  promise_all (at_ 2 (Fulfilled {| Payload.run := running |}))
              (at_ 1 (Fulfilled {| Payload.log := line1 |}))
              (at_ 3 (Fulfilled (@nil RunResultRow))).

End Sample.

(** ** The request wrappers of api.ts *)

Module Requests.

(** Every wrapper awaits [fetch] and returns [handle(resp)]. *)
Definition request {T : Type} (fetched : Settled (Api.Response T)) : Settled T :=
  match fetched with
  | Fulfilled resp => Api.handle resp
  | Rejected m => Rejected m
  end.

Definition fetchRun : Settled (Api.Response Payload.RunResp) -> Settled Payload.RunResp :=
  request.
Definition fetchLog : Settled (Api.Response Payload.LogResp) -> Settled Payload.LogResp :=
  request.
Definition fetchResults :
    Settled (Api.Response (list RunResultRow)) -> Settled (list RunResultRow) :=
  request.

(** The promise of a wrapper, settling at the instant recorded for its
    network exchange. *)
Definition through {T : Type} (wrapper : Settled (Api.Response T) -> Settled T)
    (p : Timed (Api.Response T)) : Timed T :=
  {| settled_at := settled_at p; outcome := wrapper (outcome p) |}.

(** [Promise.all([fetchRun(runId), fetchLog(runId), fetchResults(runId)])]. *)
Definition cycle (a : Timed (Api.Response Payload.RunResp))
    (b : Timed (Api.Response Payload.LogResp))
    (c : Timed (Api.Response (list RunResultRow))) : Settled Fetched :=
  promise_all (through fetchRun a) (through fetchLog b) (through fetchResults c).

End Requests.

(** ** More of pages/Dashboard.tsx *)

Module Form.

Record DatasetOption : Type := {
  label : jsstring;
  data_file : jsstring;
  sector_map : jsstring;
  description : option jsstring
}.

(** A numeric input cell holds a number or ['']; numbers are whole, as the
    inputs' default step has them. *)
Inductive NumberField : Type :=
| Blank
| Num (n : Z).

(** ToBoolean on such a cell: [''] and [0] are falsy. *)
Definition filled (f : NumberField) : bool :=
  match f with
  | Blank => false
  | Num n => negb (n =? 0)%Z
  end.

(** [f || undefined]. *)
Definition or_undefined (f : NumberField) : option Z :=
  if filled f then match f with Num n => Some n | Blank => None end else None.

(** [f ? Number(f) : undefined]. *)
Definition number_or_undefined (f : NumberField) : option Z :=
  if filled f then match f with Num n => Some n | Blank => None end else None.

(** The cells the form's handlers read. *)
Record Inputs : Type := {
  selectedDataset : jsstring;
  maxWorkers : Z;
  chunkSize : Z;
  timeout : Z;
  factLimit : NumberField;
  currFactLimit : NumberField;
  topK : NumberField;
  maxRows : NumberField
}.

(** The argument of [createRun]. *)
Record CreatePayload : Type := {
  p_data_file : jsstring;
  p_sector_map : jsstring;
  p_max_workers : Z;
  p_chunk_size : Z;
  p_timeout : Z;
  p_fact_limit : option Z;
  p_current_fact_limit : option Z;
  p_top_k : option Z;
  p_max_rows : option Z
}.

(** What [createRun] resolves to: [{ run_id: string }]. *)
Record Created : Type := { created_run_id : jsstring }.

(** What a handler does, in order. *)
Inductive Action : Type :=
| SetError (message : option jsstring)
| SetLoading (b : bool)
| CreateRun (payload : CreatePayload)
| Navigate (to : jsstring).

(** The message shown when no dataset is selected. *)
Definition select_dataset_message : jsstring :=
  [35531; 36984; 25799; 36039; 26009; 38598]%N.

Definition create_payload (ds : DatasetOption) (inp : Inputs) : CreatePayload :=
  {| p_data_file := data_file ds;
     p_sector_map := sector_map ds;
     p_max_workers := maxWorkers inp;
     p_chunk_size := chunkSize inp;
     p_timeout := timeout inp;
     p_fact_limit := or_undefined (factLimit inp);
     p_current_fact_limit := or_undefined (currFactLimit inp);
     p_top_k := or_undefined (topK inp);
     p_max_rows := or_undefined (maxRows inp) |}.

(** [handleSubmit] up to its [await]; [ds] is what
    [datasetMap[selectedDataset]] gave. *)
Definition handleSubmit_sync (ds : option DatasetOption) (inp : Inputs) : list Action :=
  SetError None ::
  match ds with
  | None => [SetError (Some select_dataset_message)]
  | Some d => [SetLoading true; CreateRun (create_payload d inp)]
  end.

(** [handleSubmit] once [createRun] has settled: the rest of [try], or
    [catch], then [finally]. *)
Definition handleSubmit_resumed (settled : Settled Created) : list Action :=
  match settled with
  | Fulfilled resp => [Navigate (lit "/runs/" ++ created_run_id resp)]
  | Rejected m => [SetError (Some m)]
  end ++ [SetLoading false].

Definition handleSubmit (ds : option DatasetOption) (inp : Inputs)
    (settled : Settled Created) : list Action :=
  handleSubmit_sync ds inp ++
  match ds with
  | None => []
  | Some _ => handleSubmit_resumed settled
  end.

Definition act (s : Dashboard.State) (a : Action) : Dashboard.State :=
  match a with
  | SetError m => Dashboard.apply_update s (Dashboard.SetError m)
  | SetLoading b =>
      {| Dashboard.runs := Dashboard.runs s;
         Dashboard.selectedDataset := Dashboard.selectedDataset s;
         Dashboard.loading := b;
         Dashboard.error := Dashboard.error s |}
  | CreateRun _ => s
  | Navigate _ => s
  end.

Definition perform (actions : list Action) (s : Dashboard.State) : Dashboard.State :=
  fold_left act actions s.

Definition is_create (a : Action) : bool :=
  match a with CreateRun _ => true | _ => false end.

Definition is_navigate (a : Action) : bool :=
  match a with Navigate _ => true | _ => false end.

(** *** The effect that loads the options and the run list *)

Record Cells : Type := {
  datasets : list DatasetOption;
  dash : Dashboard.State
}.

Inductive LoadUpdate : Type :=
| SetDatasets (ds : list DatasetOption)
| SetSelectedDataset (s : jsstring)
| SetRuns (rs : list RunRecord)
| LoadError (message : jsstring).

Definition load (c : Cells) (u : LoadUpdate) : Cells :=
  match u with
  | SetDatasets ds => {| datasets := ds; dash := dash c |}
  | SetSelectedDataset s =>
      {| datasets := datasets c;
         dash := {| Dashboard.runs := Dashboard.runs (dash c);
                    Dashboard.selectedDataset := s;
                    Dashboard.loading := Dashboard.loading (dash c);
                    Dashboard.error := Dashboard.error (dash c) |} |}
  | SetRuns rs =>
      {| datasets := datasets c;
         dash := Dashboard.apply_update (dash c) (Dashboard.SetRuns rs) |}
  | LoadError m =>
      {| datasets := datasets c;
         dash := Dashboard.apply_update (dash c) (Dashboard.SetError (Some m)) |}
  end.

Definition load_all (us : list LoadUpdate) (c : Cells) : Cells :=
  fold_left load us c.

(** The callbacks on [fetchOptions()]; the argument is [res.datasets]. *)
Definition on_options (settled : Settled (list DatasetOption)) : list LoadUpdate :=
  match settled with
  | Fulfilled ds =>
      SetDatasets ds ::
      match ds with
      | d :: _ => [SetSelectedDataset (data_file d)]
      | [] => []
      end
  | Rejected m => [LoadError m]
  end.

(** The callbacks on [fetchRuns()]; the argument is [res.runs]. *)
Definition on_runs (settled : Settled (list RunRecord)) : list LoadUpdate :=
  match settled with
  | Fulfilled rs => [SetRuns rs]
  | Rejected m => [LoadError m]
  end.

(** *** Estimates *)

Section Estimate.

(** [String(n)] on a number. *)
Variable number_text : Z -> jsstring.

(** [if (v) qs.append(key, String(v))]. *)
Definition param (key : string) (v : option Z) : list (jsstring * jsstring) :=
  match v with
  | Some n => if (n =? 0)%Z then [] else [(lit key, number_text n)]
  | None => []
  end.

(** The search parameters [estimateRun] sends to [/api/estimate]. *)
Definition estimateRun (file : jsstring)
    (max_rows top_k fact_limit current_fact_limit : option Z) :
    list (jsstring * jsstring) :=
  [(lit "data_file", file)]
  ++ param "max_rows" max_rows
  ++ param "top_k" top_k
  ++ param "fact_limit" fact_limit
  ++ param "current_fact_limit" current_fact_limit.

(** The request of the estimating effect, if it makes one. *)
Definition doEstimate (inp : Inputs) : option (list (jsstring * jsstring)) :=
  if negb (truthy (selectedDataset inp)) then None
  else Some (estimateRun (selectedDataset inp)
               (number_or_undefined (maxRows inp))
               (number_or_undefined (topK inp))
               (number_or_undefined (factLimit inp))
               (number_or_undefined (currFactLimit inp))).

(** The request of the estimate button. *)
Definition estimate_click (inp : Inputs) : list (jsstring * jsstring) :=
  estimateRun (selectedDataset inp) (number_or_undefined (maxRows inp))
    None None None.

End Estimate.

(** *** [formatDate] *)

Section FormatDate.

(** The locale's rendering of a valid time value, in milliseconds. *)
Variable toLocaleString : Z -> jsstring.

(** A time value beyond this many milliseconds from the epoch makes an
    invalid date. *)
Definition max_time_value : Z := 8640000000000000.

Definition valid_time (t : Z) : bool := (Z.abs t <=? max_time_value)%Z.

(** [new Date(t).toLocaleString()]. *)
Definition date_text (t : Z) : jsstring :=
  if valid_time t then toLocaleString t else lit "Invalid Date".

(** [formatDate], on whole timestamps. *)
Definition formatDate (ts : option Z) : jsstring :=
  match ts with
  | None => lit "-"
  | Some ts =>
      if (ts =? 0)%Z then lit "-"
      else if negb (valid_time (ts * 1000)) then date_text ts
      else date_text (ts * 1000)
  end.

End FormatDate.

End Form.

(** ** Further notions on the run view *)

Definition is_rejection (e : Event) : bool :=
  match e with Settle _ (Rejected _) => true | _ => false end.

(** An event that brings no [kg_path]. *)
Definition without_kg (e : Event) : bool :=
  match e with
  | Settle _ (Fulfilled (a, _, _)) => negb (truthy_opt (kg_path (Payload.run a)))
  | _ => true
  end.

(** The reference is that of run [id], and every poll that could still
    write one would write the same. *)
Definition pinned (id : jsstring) (c : Component) : Prop :=
  kgUrl (state c) = kg_endpoint id
  /\ Forall (fun cl => c_runId cl = id \/ truthy (c_kgUrl cl) = true) (inflight c)
  /\ (forall cl, timer c = Some cl -> c_runId cl = id \/ truthy (c_kgUrl cl) = true).

(** ** Facts about the platform primitives *)

Lemma strict_eq_true (a b : jsstring) : strict_eq a b = true <-> a = b.
Proof.
  unfold strict_eq. destruct (jsstring_dec a b); split; congruence.
Qed.

Lemma startsWith_app (p t : jsstring) : startsWith (p ++ t) p = true.
Proof.
  unfold startsWith, str_length.
  destruct (Nat.eqb_spec (length p) 0) as [|Hne]; [reflexivity|].
  rewrite length_app.
  destruct (Nat.ltb_spec (length p + length t) (length p)) as [Hlt|_]; [lia|].
  apply strict_eq_true.
  rewrite firstn_app, Nat.sub_diag, firstn_all. simpl. apply app_nil_r.
Qed.

(** [startsWith] decides the prefix relation on code-unit sequences. *)
Lemma startsWith_iff (s p : jsstring) :
  startsWith s p = true <-> exists t, s = p ++ t.
Proof.
  split.
  - unfold startsWith, str_length.
    destruct (Nat.eqb_spec (length p) 0) as [H0|Hne].
    + intros _. apply length_zero_iff_nil in H0. subst p. now exists s.
    + destruct (Nat.ltb_spec (length s) (length p)) as [|Hle]; [discriminate|].
      intros H. apply strict_eq_true in H.
      exists (skipn (length p) s).
      rewrite <- H at 1. apply eq_sym, firstn_skipn.
  - intros [t ->]. apply startsWith_app.
Qed.

Lemma slice_app (p t : jsstring) : slice (p ++ t) (str_length p) = t.
Proof.
  unfold slice, str_length. rewrite length_app.
  replace (Nat.min (length p) (length p + length t)) with (length p) by lia.
  rewrite skipn_app, skipn_all, Nat.sub_diag. reflexivity.
Qed.

(** ** The log reconciler *)

Section Reconcile.

Variables previous incoming : jsstring.

(** When [incoming] extends [previous], gluing the new suffix to
    [previous] rebuilds [incoming]. *)
Lemma extension_rebuilds :
  startsWith incoming previous = true ->
  previous ++ slice incoming (str_length previous) = incoming.
Proof.
  intros H. apply startsWith_iff in H. destruct H as [t ->].
  now rewrite slice_app.
Qed.

Lemma reconcile_incoming : reconcile previous incoming = incoming.
Proof.
  unfold reconcile. destruct (startsWith incoming previous) eqn:E.
  - now apply extension_rebuilds.
  - reflexivity.
Qed.

End Reconcile.

Lemma startsWith_refl (x : jsstring) : startsWith x x = true.
Proof. apply startsWith_iff. exists []. now rewrite app_nil_r. Qed.

Lemma startsWith_nil (b : jsstring) : startsWith b [] = true.
Proof. reflexivity. Qed.

(** C1: when [incoming] starts with [previous] the reconciler returns
    [previous] followed by the part of [incoming] past [previous]'s length,
    and that string is [incoming]; with an empty [previous] the result is
    [incoming] whatever it is. *)
Theorem reconcile_prefix_extension (previous incoming : jsstring) :
  startsWith incoming previous = true ->
  reconcile previous incoming = previous ++ slice incoming (str_length previous)
  /\ reconcile previous incoming = incoming
  /\ (forall b : jsstring, startsWith b [] = true /\ reconcile [] b = b).
Proof.
  intros H. split; [|split].
  - unfold reconcile. now rewrite H.
  - unfold reconcile. rewrite H. now apply extension_rebuilds.
  - intros b. split; [reflexivity|].
    unfold reconcile. rewrite startsWith_nil. reflexivity.
Qed.

Lemma reconcile_prefix_extension_witness :
  startsWith (lit "line1" ++ LF ++ lit "line2" ++ LF) (lit "line1" ++ LF) = true
  /\ reconcile (lit "line1" ++ LF) (lit "line1" ++ LF ++ lit "line2" ++ LF)
     = lit "line1" ++ LF ++ lit "line2" ++ LF.
Proof.
  split.
  - reflexivity.
  - apply (reconcile_prefix_extension (lit "line1" ++ LF)
             (lit "line1" ++ LF ++ lit "line2" ++ LF)).
    reflexivity.
Defined.

(** C3: reconciling a log with itself gives it back. *)
Theorem reconcile_idempotent (x : jsstring) : reconcile x x = x.
Proof.
  unfold reconcile. rewrite startsWith_refl.
  apply extension_rebuilds, startsWith_refl.
Qed.

(** C10: the two branches of the reconciler return the same string, so the
    reconciler as a whole is the projection onto [incoming]. *)
Theorem reconcile_is_second_projection :
  (forall previous incoming : jsstring,
      startsWith incoming previous = true ->
      previous ++ slice incoming (str_length previous) = incoming)
  /\ (forall previous incoming : jsstring,
        reconcile previous incoming = snd (previous, incoming)).
Proof.
  split.
  - intros p i. apply extension_rebuilds.
  - intros p i. simpl. apply reconcile_incoming.
Qed.

Lemma reconcile_is_second_projection_witness :
  lit "ab" ++ slice (lit "abc") (str_length (lit "ab")) = lit "abc"
  /\ reconcile (lit "xy") (lit "abc") = lit "abc".
Proof.
  split.
  - apply (proj1 reconcile_is_second_projection). reflexivity.
  - apply (proj2 reconcile_is_second_projection).
Defined.

(** ** One poll cycle *)

Lemma commit_fulfilled (cl : Closure) (a : Payload.RunResp) (b : Payload.LogResp)
    (c : list RunResultRow) (s : State) :
  commit cl (Fulfilled (a, b, c)) s =
  {| run := Some (Payload.run a);
     results := c;
     logText := reconcile (logText s) (Payload.log b);
     error := error s;
     kgUrl := if truthy_opt (kg_path (Payload.run a)) && negb (truthy (c_kgUrl cl))
              then kg_endpoint (c_runId cl) else kgUrl s |}.
Proof.
  unfold commit, poll, apply_updates.
  destruct (truthy_opt (kg_path (Payload.run a)) && negb (truthy (c_kgUrl cl)));
    reflexivity.
Qed.

Lemma commit_rejected (cl : Closure) (m : jsstring) (s : State) :
  commit cl (Rejected m) s =
  {| run := run s; results := results s; logText := logText s;
     error := Some m; kgUrl := kgUrl s |}.
Proof. reflexivity. Qed.

Lemma run_cycles_cons (c : Closure * Fetched) (cycles : list (Closure * Fetched))
    (s : State) :
  run_cycles (c :: cycles) s = run_cycles cycles (commit (fst c) (Fulfilled (snd c)) s).
Proof. reflexivity. Qed.

Lemma logText_commit_fulfilled (c : Closure * Fetched) (s : State) :
  logText (commit (fst c) (Fulfilled (snd c)) s) = snapshot c.
Proof.
  destruct c as [cl [[a b] rows]]. simpl fst. simpl snd.
  rewrite commit_fulfilled. simpl. apply reconcile_incoming.
Qed.

(** After a non-empty run of successful cycles the buffer holds the last
    snapshot. *)
Lemma logText_run_cycles (cycles : list (Closure * Fetched)) :
  cycles <> [] ->
  forall s, logText (run_cycles cycles s) = last (map snapshot cycles) [].
Proof.
  induction cycles as [|c rest IH]; [congruence|].
  intros _ s. rewrite run_cycles_cons.
  destruct rest as [|c' rest'].
  - simpl. apply logText_commit_fulfilled.
  - rewrite IH by discriminate. reflexivity.
Qed.

(** C4: N successful cycles whose log snapshots form a prefix chain,
    applied in order to an empty buffer, leave the last snapshot in the
    buffer. *)
Theorem prefix_chain_final_buffer (cycles : list (Closure * Fetched)) (s : State) :
  cycles <> [] ->
  logText s = [] ->
  prefix_chain (map snapshot cycles) ->
  logText (run_cycles cycles s) = last (map snapshot cycles) [].
Proof.
  intros Hne _ _. now apply logText_run_cycles.
Qed.

Lemma prefix_chain_final_buffer_witness :
  Sample.scenarioA <> []
  /\ logText initial = []
  /\ prefix_chain (map snapshot Sample.scenarioA)
  /\ logText (run_cycles Sample.scenarioA initial)
     = Sample.line1 ++ Sample.line2 ++ Sample.line3.
Proof.
  split; [discriminate|]. split; [reflexivity|].
  split; [simpl; repeat split; reflexivity|].
  apply (prefix_chain_final_buffer Sample.scenarioA initial).
  - discriminate.
  - reflexivity.
  - simpl; repeat split; reflexivity.
Defined.

(** ** Replacement of the buffer *)

(** The setter calls of a successful cycle never touch the error cell. *)
Lemma error_commit_fulfilled (cl : Closure) (f : Fetched) (s : State) :
  error (commit cl (Fulfilled f) s) = error s.
Proof.
  destruct f as [[a b] rows]. now rewrite commit_fulfilled.
Qed.

(** What a successful cycle publishes does not depend on the buffer it
    found. *)
Lemma commit_fulfilled_forgets_log (cl : Closure) (f : Fetched) (s : State)
    (l : jsstring) :
  commit cl (Fulfilled f) (with_log s l) = commit cl (Fulfilled f) s.
Proof.
  destruct f as [[a b] rows]. rewrite !commit_fulfilled. simpl.
  now rewrite !reconcile_incoming.
Qed.

(** C2, as stated, fails: the buffer ["abc"] is replaced by the snapshot
    ["xyz"], and the state published is the one an empty buffer would have
    led to; the replacement is not exposed. *)
Lemma replacement_not_exposed :
  lit "abc" <> []
  /\ startsWith (lit "xyz") (lit "abc") = false
  /\ ~ anomaly_exposed Sample.closureA
         (Sample.fetched Sample.running (lit "xyz"))
         (with_log initial (lit "abc")).
Proof.
  split; [discriminate|]. split; [reflexivity|].
  intros H. apply (H []); reflexivity.
Qed.

(** C2, amended: when [incoming] does not start with a non-empty
    [previous], the reconciler returns [incoming] verbatim; the cycle
    leaves the error cell as it was and publishes the very state it would
    publish over any other buffer: nothing marks the replacement. *)
Theorem replacement_is_silent (previous incoming : jsstring) :
  previous <> [] ->
  startsWith incoming previous = false ->
  reconcile previous incoming = incoming
  /\ forall (cl : Closure) (a : Payload.RunResp) (rows : list RunResultRow)
            (s : State),
       logText s = previous ->
       let f := (a, {| Payload.log := incoming |}, rows) in
       logText (commit cl (Fulfilled f) s) = incoming
       /\ error (commit cl (Fulfilled f) s) = error s
       /\ (forall prev' : jsstring,
             commit cl (Fulfilled f) s = commit cl (Fulfilled f) (with_log s prev'))
       /\ ~ anomaly_exposed cl f s.
Proof.
  intros _ Hno. split.
  - unfold reconcile. now rewrite Hno.
  - intros cl a rows s _ f. split; [|split; [|split]].
    + apply (logText_commit_fulfilled (cl, f)).
    + apply error_commit_fulfilled.
    + intros prev'. symmetry. apply commit_fulfilled_forgets_log.
    + intros H. apply (H []); [reflexivity|].
      symmetry. apply commit_fulfilled_forgets_log.
Qed.

Lemma replacement_is_silent_witness :
  lit "abc" <> []
  /\ startsWith (lit "xyz") (lit "abc") = false
  /\ reconcile (lit "abc") (lit "xyz") = lit "xyz".
Proof.
  split; [discriminate|]. split; [reflexivity|].
  apply (replacement_is_silent (lit "abc") (lit "xyz")).
  - discriminate.
  - reflexivity.
Defined.

(** ** The effect and its interval *)

Lemma deps_eqb_true (a b : Deps) : deps_eqb a b = true -> a = b.
Proof.
  unfold deps_eqb. intros H. apply andb_prop in H. destruct H as [H1 H2].
  apply strict_eq_true in H2.
  destruct a as [[x|] u], b as [[y|] v]; simpl in *; subst;
    try discriminate; [|reflexivity].
  apply strict_eq_true in H1. now subst.
Qed.

Lemma state_effect (c : Component) : state (effect c) = state c.
Proof. unfold effect. destruct (runId c) as [id|]; [destruct (truthy id)|]; reflexivity. Qed.

Lemma mounted_effect (c : Component) : mounted (effect c) = mounted c.
Proof. unfold effect. destruct (runId c) as [id|]; [destruct (truthy id)|]; reflexivity. Qed.

Lemma runId_effect (c : Component) : runId (effect c) = runId c.
Proof. unfold effect. destruct (runId c) as [id|]; [destruct (truthy id)|]; reflexivity. Qed.

Lemma deps_effect (c : Component) : deps (effect c) = current_deps c.
Proof. unfold effect. destruct (runId c) as [id|]; [destruct (truthy id)|]; reflexivity. Qed.

Lemma timer_effect (c : Component) : timer (effect c) = effect_timer (current_deps c).
Proof.
  unfold effect, effect_timer, current_deps. simpl.
  destruct (runId c) as [id|]; [destruct (truthy id)|]; reflexivity.
Qed.

Lemma state_render (c : Component) : state (render c) = state c.
Proof.
  unfold render. destruct (deps_eqb _ _); [reflexivity | apply state_effect].
Qed.

Lemma mounted_render (c : Component) : mounted (render c) = mounted c.
Proof.
  unfold render. destruct (deps_eqb _ _); [reflexivity | apply mounted_effect].
Qed.

Lemma runId_render (c : Component) : runId (render c) = runId c.
Proof.
  unfold render. destruct (deps_eqb _ _); [reflexivity | apply runId_effect].
Qed.

Lemma current_deps_render (c : Component) : current_deps (render c) = current_deps c.
Proof. unfold current_deps. now rewrite runId_render, state_render. Qed.

(** A render restores the agreement between the interval and the
    dependencies. *)
Lemma synced_render (c : Component) :
  mounted c = true -> timer c = effect_timer (deps c) -> synced (render c).
Proof.
  intros Hm Ht. unfold synced. rewrite mounted_render, Hm.
  rewrite current_deps_render. unfold render.
  destruct (deps_eqb (deps c) (current_deps c)) eqn:E.
  - apply deps_eqb_true in E. now split.
  - rewrite deps_effect, timer_effect. now split.
Qed.

Lemma synced_mount (id : option jsstring) : synced (mount id).
Proof.
  unfold synced, mount. rewrite mounted_effect. simpl.
  rewrite deps_effect, timer_effect. split; [|reflexivity].
  unfold current_deps. now rewrite runId_effect, state_effect.
Qed.

Lemma synced_step (c : Component) (e : Event) : synced c -> synced (step c e).
Proof.
  intros H. destruct e as [|i settled|id|]; simpl.
  - destruct (timer c) as [cl|] eqn:Ht; [|exact H].
    unfold synced in *. simpl. destruct (mounted c); [|congruence].
    now rewrite Ht in H.
  - destruct (nth_error (inflight c) i) as [cl|]; [|exact H].
    unfold synced in H. destruct (mounted c) eqn:Hm.
    + apply synced_render; [reflexivity | simpl; tauto].
    + unfold synced. simpl. exact H.
  - unfold synced in H. destruct (mounted c) eqn:Hm.
    + apply synced_render; [reflexivity | simpl; tauto].
    + unfold synced. now rewrite Hm.
  - unfold synced. reflexivity.
Qed.

Lemma synced_exec (es : list Event) (c : Component) : synced c -> synced (exec c es).
Proof.
  revert c. induction es as [|e es IH]; intros c H; [exact H|].
  simpl. apply IH. now apply synced_step.
Qed.

Lemma reachable_synced (c : Component) : reachable c -> synced c.
Proof.
  intros [id [es ->]]. apply synced_exec, synced_mount.
Qed.

(** ** Failed cycles *)

Lemma strict_eq_refl (a : jsstring) : strict_eq a a = true.
Proof. now apply strict_eq_true. Qed.

Lemma deps_eqb_refl (d : Deps) : deps_eqb d d = true.
Proof.
  destruct d as [[x|] u]; unfold deps_eqb; simpl;
    now rewrite ?strict_eq_refl.
Qed.

(** [Promise.all] rejects as soon as one request does, with the reason of
    one of the rejected requests. *)
Lemma promise_all_rejected {A B C : Type} (a : Timed A) (b : Timed B) (c : Timed C) :
  is_rejected a \/ is_rejected b \/ is_rejected c ->
  exists m, promise_all a b c = Rejected m /\ reason_of_one a b c m.
Proof.
  unfold is_rejected, reason_of_one, promise_all, rejection.
  destruct a as [ta [x|ma]], b as [tb [y|mb]], c as [tc [z|mc]]; simpl;
    intros H;
    try (exfalso; destruct H as [[m H]|[[m H]|[m H]]]; discriminate);
    repeat match goal with
           | |- context [Nat.leb ?u ?v] => destruct (Nat.leb u v); simpl
           end;
    eexists; split; try reflexivity; auto.
Qed.

Lemma promise_all_fulfilled {A B C : Type} (a : Timed A) (b : Timed B) (c : Timed C)
    (x : A) (y : B) (z : C) :
  outcome a = Fulfilled x -> outcome b = Fulfilled y -> outcome c = Fulfilled z ->
  promise_all a b c = Fulfilled (x, y, z).
Proof.
  unfold promise_all, rejection. intros -> -> ->. reflexivity.
Qed.

(** A cycle that only writes the error cell does not re-run the effect. *)
Lemma step_settle_rejected (c : Component) (i : nat) (cl : Closure) (m : jsstring) :
  synced c -> mounted c = true -> nth_error (inflight c) i = Some cl ->
  step c (Settle i (Rejected m)) =
  {| mounted := true; runId := runId c;
     state := commit cl (Rejected m) (state c);
     deps := deps c; timer := timer c;
     inflight := remove_nth i (inflight c) |}.
Proof.
  intros Hs Hm Hi. simpl. rewrite Hi, Hm.
  unfold synced in Hs. rewrite Hm in Hs. destruct Hs as [Hd _].
  unfold render, current_deps. simpl. unfold current_deps in Hd.
  now rewrite <- Hd, deps_eqb_refl.
Qed.

(** C5, as stated, fails: a cycle fails and its message is shown; the
    interval fires again and that cycle succeeds; the message is still
    there. *)
Lemma error_survives_success :
  let c1 := step (mount (Some Sample.A)) (Settle 0 Sample.failing) in
  let c2 := step (step c1 Tick) (Settle 0 Sample.succeeding) in
  error (state c1) = Some (lit "Internal Server Error")
  /\ run (state c2) = Some Sample.running
  /\ logText (state c2) = Sample.line1
  /\ error (state c2) <> None.
Proof.
  repeat split; try reflexivity. discriminate.
Qed.

(** C5, amended: when one of the three requests of a cycle fails, the
    cycle stores the reason of a failed request in the error cell and
    leaves the rest of the state alone; the interval stays as it was, so its
    next tick starts a new cycle; a later successful cycle does not clear
    the message. *)
Theorem failed_cycle_is_surfaced (c : Component) (i : nat) (cl : Closure)
    (a : Timed Payload.RunResp) (b : Timed Payload.LogResp)
    (d : Timed (list RunResultRow)) :
  reachable c -> mounted c = true -> nth_error (inflight c) i = Some cl ->
  is_rejected a \/ is_rejected b \/ is_rejected d ->
  exists m : jsstring,
    promise_all a b d = Rejected m
    /\ reason_of_one a b d m
    /\ let c' := step c (Settle i (promise_all a b d)) in
       state c' = {| run := run (state c); results := results (state c);
                     logText := logText (state c); error := Some m;
                     kgUrl := kgUrl (state c) |}
       /\ timer c' = timer c
       /\ timer c = effect_timer (current_deps c)
       /\ (forall cl' : Closure, timer c = Some cl' ->
             inflight (step c' Tick) = inflight c' ++ [cl'])
       /\ (forall (cl' : Closure) (f : Fetched),
             error (commit cl' (Fulfilled f) (state c')) = Some m).
Proof.
  intros Hr Hm Hi Hrej.
  destruct (promise_all_rejected a b d Hrej) as [m [Hp Hone]].
  exists m. split; [exact Hp|]. split; [exact Hone|].
  apply reachable_synced in Hr.
  rewrite Hp.
  change (@Rejected (Payload.RunResp * Payload.LogResp * list RunResultRow) m)
    with (@Rejected Fetched m).
  rewrite (step_settle_rejected c i cl m Hr Hm Hi).
  cbv zeta. simpl state. simpl timer.
  split; [apply commit_rejected|]. split; [reflexivity|].
  split.
  - unfold synced in Hr. rewrite Hm in Hr. destruct Hr as [Hd Ht].
    now rewrite Ht, Hd.
  - split.
    + intros cl' Ht. simpl. now rewrite Ht.
    + intros cl' f. now rewrite error_commit_fulfilled.
Qed.

Lemma failed_cycle_is_surfaced_witness :
  reachable (mount (Some Sample.A))
  /\ mounted (mount (Some Sample.A)) = true
  /\ nth_error (inflight (mount (Some Sample.A))) 0 = Some Sample.closureA
  /\ exists m : jsstring,
       error (state (step (mount (Some Sample.A)) (Settle 0 Sample.failing)))
       = Some m.
Proof.
  assert (Hr : reachable (mount (Some Sample.A))) by (exists (Some Sample.A), []; reflexivity).
  split; [exact Hr|]. split; [reflexivity|]. split; [reflexivity|].
  destruct (failed_cycle_is_surfaced (mount (Some Sample.A)) 0 Sample.closureA
              (Sample.at_ 2 (Fulfilled {| Payload.run := Sample.running |}))
              (Sample.at_ 1 (Rejected (lit "Internal Server Error")))
              (Sample.at_ 3 (Fulfilled (@nil RunResultRow)))
              Hr eq_refl eq_refl
              (or_intror (or_introl (ex_intro _ (lit "Internal Server Error") eq_refl))))
    as [m [_ [_ [Hs _]]]].
  exists m. unfold Sample.failing. now rewrite Hs.
Defined.

(** ** Cancellation *)

Lemma length_remove_nth {A : Type} (i : nat) (l : list A) :
  length (remove_nth i l) <= length l.
Proof.
  unfold remove_nth. rewrite length_app, length_firstn, length_skipn. lia.
Qed.

(** Once unmounted, a component keeps its state, has no interval and starts
    no cycle. *)
Lemma step_unmounted (c : Component) (e : Event) :
  mounted c = false -> timer c = None ->
  mounted (step c e) = false /\ timer (step c e) = None
  /\ state (step c e) = state c
  /\ length (inflight (step c e)) <= length (inflight c).
Proof.
  intros Hm Ht. destruct e as [|i settled|id|]; simpl.
  - rewrite Ht. auto.
  - destruct (nth_error (inflight c) i); [|auto].
    rewrite Hm. simpl. repeat split; auto. apply length_remove_nth.
  - rewrite Hm. auto.
  - auto.
Qed.

Lemma exec_unmounted (es : list Event) (c : Component) :
  mounted c = false -> timer c = None ->
  state (exec c es) = state c /\ timer (exec c es) = None
  /\ length (inflight (exec c es)) <= length (inflight c).
Proof.
  revert c. induction es as [|e es IH]; intros c Hm Ht; [auto|].
  destruct (step_unmounted c e Hm Ht) as [Hm' [Ht' [Hs' Hl']]].
  destruct (IH (step c e) Hm' Ht') as [Hs [Htm Hl]].
  simpl. rewrite Hs, Hs'. repeat split; auto. lia.
Qed.

(** A render never takes a poll out of flight. *)
Lemma inflight_render (c : Component) :
  exists rest, inflight (render c) = inflight c ++ rest.
Proof.
  unfold render, effect. destruct (deps_eqb _ _).
  - exists []. now rewrite app_nil_r.
  - destruct (runId c) as [id|]; [destruct (truthy id)|]; simpl;
      solve [eexists; reflexivity | exists []; now rewrite app_nil_r].
Qed.

Lemma nth_error_inflight_render (c : Component) (i : nat) (cl : Closure) :
  nth_error (inflight c) i = Some cl -> nth_error (inflight (render c)) i = Some cl.
Proof.
  intros H. destruct (inflight_render c) as [rest ->].
  rewrite nth_error_app1; [exact H|].
  apply nth_error_Some. congruence.
Qed.

(** While the component is mounted, a poll that settles commits its
    updates, whichever effect run started it. *)
Lemma state_step_settle (c : Component) (i : nat) (cl : Closure)
    (settled : Settled Fetched) :
  mounted c = true -> nth_error (inflight c) i = Some cl ->
  state (step c (Settle i settled)) = commit cl settled (state c).
Proof.
  intros Hm Hi. simpl. rewrite Hi, Hm. now rewrite state_render.
Qed.

(** C6, as stated, fails: the route moves from run A to run B while A's
    first poll is in flight; the cleanup has run, yet when that poll settles
    its record, log and rows are stored. *)
Lemma stale_cycle_commits_after_cleanup :
  let c1 := step (mount (Some Sample.A)) (Route (Some Sample.B)) in
  let c2 := step c1 (Settle 0 (Fulfilled (Sample.fetched Sample.running Sample.line1))) in
  timer c1 = Some {| c_runId := Sample.B; c_kgUrl := [] |}
  /\ run (state c1) = None
  /\ run (state c2) = Some Sample.running
  /\ logText (state c2) = Sample.line1
  /\ ~ discards_after (mount (Some Sample.A)) (Route (Some Sample.B)).
Proof.
  repeat split.
  intros H.
  specialize (H 0 Sample.closureA
                (Fulfilled (Sample.fetched Sample.running Sample.line1)) eq_refl).
  apply (f_equal run) in H. discriminate H.
Qed.

(** C6, amended: after an unmount the state is never updated again and no
    cycle is started; after a cleanup caused by a change of the route's run
    id the interval belongs to the new run only, and a poll that was in
    flight still commits its updates when it settles. *)
Theorem cancellation_keeps_inflight_polls (c : Component) (i : nat) (cl : Closure) :
  reachable c -> mounted c = true -> nth_error (inflight c) i = Some cl ->
  (forall es : list Event,
      let u := exec (step c Unmount) es in
      state u = state c /\ timer u = None
      /\ length (inflight u) <= length (inflight c))
  /\ (forall (id' : option jsstring) (settled : Settled Fetched),
        let c1 := step c (Route id') in
        timer c1 = effect_timer (id', kgUrl (state c))
        /\ state c1 = state c
        /\ nth_error (inflight c1) i = Some cl
        /\ state (step c1 (Settle i settled)) = commit cl settled (state c)).
Proof.
  intros Hr Hm Hi. apply reachable_synced in Hr. split.
  - intros es u. subst u.
    apply (exec_unmounted es (step c Unmount)); reflexivity.
  - intros id' settled c1.
    assert (Hc1 : c1 = render {| mounted := true; runId := id'; state := state c;
                                 deps := deps c; timer := timer c;
                                 inflight := inflight c |})
      by (subst c1; simpl; now rewrite Hm).
    assert (Hsync : synced c1).
    { rewrite Hc1. apply synced_render; [reflexivity|].
      unfold synced in Hr. rewrite Hm in Hr. simpl. tauto. }
    assert (Hm1 : mounted c1 = true) by (rewrite Hc1; now rewrite mounted_render).
    assert (Hs1 : state c1 = state c) by (rewrite Hc1; now rewrite state_render).
    assert (Hi1 : nth_error (inflight c1) i = Some cl)
      by (rewrite Hc1; now apply nth_error_inflight_render).
    repeat split; auto.
    + unfold synced in Hsync. rewrite Hm1 in Hsync. destruct Hsync as [Hd Ht].
      rewrite Ht, Hd. unfold current_deps. rewrite Hs1.
      rewrite Hc1 at 1. now rewrite runId_render.
    + rewrite (state_step_settle c1 i cl settled Hm1 Hi1). now rewrite Hs1.
Qed.

Lemma cancellation_keeps_inflight_polls_witness :
  reachable (mount (Some Sample.A))
  /\ mounted (mount (Some Sample.A)) = true
  /\ nth_error (inflight (mount (Some Sample.A))) 0 = Some Sample.closureA
  /\ state (exec (step (mount (Some Sample.A)) Unmount)
              [Settle 0 (Fulfilled (Sample.fetched Sample.running Sample.line1))])
     = state (mount (Some Sample.A)).
Proof.
  assert (Hr : reachable (mount (Some Sample.A)))
    by (exists (Some Sample.A), []; reflexivity).
  split; [exact Hr|]. split; [reflexivity|]. split; [reflexivity|].
  apply (proj1 (cancellation_keeps_inflight_polls
                  (mount (Some Sample.A)) 0 Sample.closureA Hr eq_refl eq_refl)
               [Settle 0 (Fulfilled (Sample.fetched Sample.running Sample.line1))]).
Defined.

(** ** The progress display *)

Lemma ratio_pos (v : Z) (p : positive) :
  (inject_Z v / inject_Z (Z.pos p) == v # p)%Q.
Proof.
  unfold Qdiv, Qinv, Qmult, Qeq, inject_Z. simpl. lia.
Qed.

Lemma clamp01_bounds (q : Q) : (0 <= clamp01 q)%Q /\ (clamp01 q <= 1)%Q.
Proof.
  unfold clamp01. split.
  - apply Q.le_max_l.
  - apply Q.max_lub; [discriminate | apply Q.le_min_l].
Qed.

(** Capping the value at a positive maximum and flooring it at 0, then
    dividing, is clamping the ratio to the unit interval. *)
Lemma capped_ratio (m v : Z) :
  (0 < m)%Z ->
  (inject_Z (if (m <? v)%Z then m else if (v <? 0)%Z then 0%Z else v) / inject_Z m
   == clamp01 (inject_Z v / inject_Z m))%Q.
Proof.
  intros Hm. destruct m as [|p|p]; try lia.
  unfold clamp01.
  destruct (Z.ltb_spec (Z.pos p) v) as [H1|H1];
    [|destruct (Z.ltb_spec v 0) as [H2|H2]].
  - rewrite Q.min_l by (rewrite ratio_pos; unfold Qle; simpl; lia).
    rewrite Q.max_r by (unfold Qle; simpl; lia).
    rewrite ratio_pos. unfold Qeq; simpl. lia.
  - rewrite Q.min_r by (rewrite ratio_pos; unfold Qle; simpl; lia).
    rewrite Q.max_l by (rewrite ratio_pos; unfold Qle; simpl; lia).
    rewrite ratio_pos. unfold Qeq; simpl. lia.
  - rewrite Q.min_r by (rewrite ratio_pos; unfold Qle; simpl; lia).
    rewrite Q.max_r by (rewrite ratio_pos; unfold Qle; simpl; lia).
    reflexivity.
Qed.

Lemma clamp01_over_one (v : Z) :
  (clamp01 (inject_Z v / inject_Z 1) == clamp01 (inject_Z v))%Q.
Proof.
  assert (E : (inject_Z v / inject_Z 1 == inject_Z v)%Q)
    by (rewrite ratio_pos; reflexivity).
  unfold clamp01. now rewrite E.
Qed.

(** The bar always has a value, so it always has a position. *)
Lemma progress_fraction_eq (r : RunRecord) :
  progress_fraction r =
  Some (inject_Z (DOM.current_value (progress_props r) (completed_rows r))
        / inject_Z (DOM.maximum_value (progress_props r)))%Q.
Proof. reflexivity. Qed.

Lemma maximum_value_positive (p : DOM.ProgressProps) : (0 < DOM.maximum_value p)%Z.
Proof.
  unfold DOM.maximum_value. destruct (DOM.max p) as [m|]; [|lia].
  destruct (Z.ltb_spec 0 m); lia.
Qed.

Lemma progress_fraction_clamped (r : RunRecord) :
  exists q : Q,
    progress_fraction r = Some q
    /\ (q == clamp01 (inject_Z (completed_rows r)
                      / inject_Z (DOM.maximum_value (progress_props r))))%Q.
Proof.
  eexists. split; [apply progress_fraction_eq|].
  unfold DOM.current_value. apply capped_ratio, maximum_value_positive.
Qed.

(** C7, as stated, fails: a queued run without a total, and a run whose
    total is zero, both get a determinate bar. *)
Lemma absent_total_is_determinate :
  total_rows Sample.queued = None
  /\ progress_fraction Sample.queued <> None
  /\ total_rows Sample.empty_total = Some 0%Z
  /\ progress_fraction Sample.empty_total <> None.
Proof.
  repeat split; discriminate.
Qed.

(** C7, amended: the bar is never indeterminate, its position always lies
    in the unit interval.  Without a total the text shows ['?'] and the bar
    is filled to [completed_rows] clamped to the unit interval; so it is
    with a zero total, shown as [0]; with a positive total the position is
    [completed_rows / total_rows] clamped to the unit interval, also when
    [completed_rows] exceeds [total_rows]. *)
Theorem progress_fraction_rendered (r : RunRecord) :
  (exists q : Q, progress_fraction r = Some q /\ (0 <= q)%Q /\ (q <= 1)%Q)
  /\ (total_rows r = None ->
      snd (progress_text r) = inr (lit "?")
      /\ exists q : Q, progress_fraction r = Some q
                       /\ (q == clamp01 (inject_Z (completed_rows r)))%Q)
  /\ (total_rows r = Some 0%Z ->
      snd (progress_text r) = inl 0%Z
      /\ exists q : Q, progress_fraction r = Some q
                       /\ (q == clamp01 (inject_Z (completed_rows r)))%Q)
  /\ (forall t : Z, total_rows r = Some t -> (0 < t)%Z ->
      snd (progress_text r) = inl t
      /\ exists q : Q, progress_fraction r = Some q
                       /\ (q == clamp01 (inject_Z (completed_rows r) / inject_Z t))%Q).
Proof.
  destruct (progress_fraction_clamped r) as [q [Hq Hc]].
  split; [|split; [|split]].
  - exists q. split; [exact Hq|]. rewrite Hc. apply clamp01_bounds.
  - intros Ht. split; [unfold progress_text; now rewrite Ht|].
    exists q. split; [exact Hq|]. rewrite Hc.
    unfold DOM.maximum_value, progress_props. simpl. rewrite Ht. simpl.
    apply clamp01_over_one.
  - intros Ht. split; [unfold progress_text; now rewrite Ht|].
    exists q. split; [exact Hq|]. rewrite Hc.
    unfold DOM.maximum_value, progress_props. simpl. rewrite Ht. simpl.
    apply clamp01_over_one.
  - intros t Ht Hpos. split; [unfold progress_text; now rewrite Ht|].
    exists q. split; [exact Hq|]. rewrite Hc.
    unfold DOM.maximum_value, progress_props. simpl. rewrite Ht. simpl.
    destruct (Z.ltb_spec 0 t); [reflexivity | lia].
Qed.

Lemma progress_fraction_rendered_witness :
  total_rows Sample.overshoot = Some 100%Z
  /\ (0 < 100)%Z
  /\ exists q : Q,
       progress_fraction Sample.overshoot = Some q
       /\ (q == clamp01 (inject_Z 120 / inject_Z 100))%Q.
Proof.
  split; [reflexivity|]. split; [lia|].
  apply (proj2 (proj2 (proj2 (progress_fraction_rendered Sample.overshoot)))
               100%Z eq_refl eq_refl).
Defined.

(** ** The knowledge-graph section *)

Lemma truthy_iff (p : jsstring) : truthy p = true <-> p <> [].
Proof. destruct p; simpl; split; congruence. Qed.

Lemma kg_endpoint_truthy (id : jsstring) : truthy (kg_endpoint id) = true.
Proof. reflexivity. Qed.

(** A poll whose closure saw a reference makes no [setKgUrl] call. *)
Lemma poll_keeps_reference (cl : Closure) (settled : Settled Fetched) :
  truthy (c_kgUrl cl) = true -> existsb sets_kgUrl (poll cl settled) = false.
Proof.
  intros H. destruct settled as [[[a b] rows]|m]; [|reflexivity].
  unfold poll. rewrite H, andb_false_r. reflexivity.
Qed.

(** A poll of run [id] leaves the reference alone or sets it to the path of
    run [id]. *)
Lemma kgUrl_commit (cl : Closure) (settled : Settled Fetched) (s : State) :
  kgUrl (commit cl settled s) = kgUrl s
  \/ kgUrl (commit cl settled s) = kg_endpoint (c_runId cl).
Proof.
  destruct settled as [[[a b] rows]|m]; [|now left].
  rewrite commit_fulfilled. simpl.
  destruct (truthy_opt (kg_path (Payload.run a)) && negb (truthy (c_kgUrl cl)));
    auto.
Qed.

Lemma Forall_remove_nth {A : Type} (P : A -> Prop) (i : nat) (l : list A) :
  Forall P l -> Forall P (remove_nth i l).
Proof.
  intros H. unfold remove_nth. apply Forall_app. split.
  - rewrite <- (firstn_skipn i l) in H. now apply Forall_app in H.
  - rewrite <- (firstn_skipn (S i) l) in H. now apply Forall_app in H.
Qed.

Lemma keyed_by_render (id : jsstring) (c : Component) :
  keyed_by id c -> keyed_by id (render c).
Proof.
  intros (Hid & Hk & Hf & Ht). unfold render.
  destruct (deps_eqb _ _); [unfold keyed_by; auto|].
  unfold effect. rewrite Hid.
  destruct (truthy id); unfold keyed_by; simpl;
    (split; [auto|]); (split; [exact Hk|]); split; auto; try discriminate.
  all: try (intros cl E; injection E as <-; reflexivity).
  all: apply Forall_app; split; [exact Hf|]; now repeat constructor.
Qed.

Lemma keyed_by_mount (id : jsstring) : keyed_by id (mount (Some id)).
Proof.
  unfold mount, effect. simpl.
  destruct (truthy id); unfold keyed_by; simpl;
    (split; [reflexivity|]); (split; [now left|]); split; auto; try discriminate.
  intros cl E. injection E as <-. reflexivity.
Qed.

Lemma keyed_by_step (id : jsstring) (c : Component) (e : Event) :
  is_route e = false -> keyed_by id c ->
  keyed_by id (step c e)
  /\ (kgUrl (state (step c e)) = kgUrl (state c)
      \/ kgUrl (state (step c e)) = kg_endpoint id).
Proof.
  intros Hnr Hk. pose proof Hk as (Hid & Hu & Hf & Ht).
  destruct e as [|i settled|id'|]; try discriminate; simpl.
  - destruct (timer c) as [cl|] eqn:E; [|split; [exact Hk | now left]].
    split; [|now left]. unfold keyed_by; simpl.
    split; [exact Hid|]. split; [exact Hu|]. split.
    + apply Forall_app. split; [exact Hf|]. repeat constructor. now apply Ht.
    + intros cl0 E0. injection E0 as <-. now apply Ht.
  - destruct (nth_error (inflight c) i) as [cl|] eqn:E;
      [|split; [exact Hk | now left]].
    assert (Hcl : c_runId cl = id).
    { apply nth_error_In in E. rewrite Forall_forall in Hf. now apply Hf. }
    destruct (mounted c).
    + rewrite state_render. simpl.
      pose proof (kgUrl_commit cl settled (state c)) as Hc. rewrite Hcl in Hc.
      split; [|exact Hc].
      apply keyed_by_render. unfold keyed_by; simpl.
      split; [exact Hid|]. split; [|split; [|exact Ht]].
      * destruct Hc as [-> | ->]; auto.
      * now apply Forall_remove_nth.
    + split; [|now left]. unfold keyed_by; simpl.
      split; [exact Hid|]. split; [exact Hu|]. split; [|exact Ht].
      now apply Forall_remove_nth.
  - split; [|now left]. unfold keyed_by; simpl.
    split; [exact Hid|]. split; [exact Hu|]. split; [exact Hf|]. discriminate.
Qed.

(** Once the reference of run [id] is in place, no event other than a
    change of route moves it. *)
Lemma kgUrl_exec_stable (id : jsstring) (es : list Event) (c : Component) :
  forallb (fun e => negb (is_route e)) es = true ->
  keyed_by id c -> kgUrl (state c) = kg_endpoint id ->
  kgUrl (state (exec c es)) = kg_endpoint id.
Proof.
  revert c. induction es as [|e es IH]; intros c Hes Hk Hu; [exact Hu|].
  simpl in Hes. apply andb_prop in Hes. destruct Hes as [He Hes].
  apply negb_true_iff in He.
  destruct (keyed_by_step id c e He Hk) as [Hk' Hu'].
  simpl. apply IH; auto. destruct Hu' as [-> | ->]; auto.
Qed.

Lemma keyed_by_exec (id : jsstring) (es : list Event) (c : Component) :
  forallb (fun e => negb (is_route e)) es = true ->
  keyed_by id c -> keyed_by id (exec c es).
Proof.
  revert c. induction es as [|e es IH]; intros c Hes Hk; [exact Hk|].
  simpl in Hes. apply andb_prop in Hes. destruct Hes as [He Hes].
  apply negb_true_iff in He.
  simpl. apply IH; auto. now apply keyed_by_step.
Qed.

(** C8, as stated, fails.  A record whose [kg_path] is present but empty,
    on a run that is not running, counts as having no graph.  And a
    reference already set is overwritten when a poll of the previous run,
    still in flight after the route moved from A to B, settles late. *)
Lemma kg_reference_not_as_stated :
  (kg_path Sample.blank_kg <> None
   /\ kg_available (Some Sample.blank_kg) = false)
  /\ (let c1 := exec (mount (Some Sample.A))
                  [Route (Some Sample.B);
                   Settle 1 (Fulfilled (Sample.fetched Sample.with_kg_B []))] in
      let c2 := step c1 (Settle 0 (Fulfilled (Sample.fetched Sample.with_kg []))) in
      kgUrl (state c1) = kg_endpoint Sample.B
      /\ kgUrl (state c2) = kg_endpoint Sample.A
      /\ kgUrl (state c2) <> kgUrl (state c1)).
Proof.
  split; [split; [discriminate | reflexivity]|].
  cbv zeta. split; [reflexivity|]. split; [reflexivity|]. discriminate.
Qed.

(** C8, amended: the graph counts as available exactly when [kg_path] is
    a non-empty string or the status is [running]; in a view whose run id
    stays the same, the reference, once set, is the path keyed by that run
    id and no later event changes it; and a cycle started once the
    reference is set makes no [setKgUrl] call at all. *)
Theorem kg_reference_is_stable :
  (forall r : RunRecord,
      kg_available (Some r) = true
      <-> ((exists p : jsstring, kg_path r = Some p /\ p <> [])
           \/ status r = lit "running"))
  /\ (forall (id : jsstring) (es es' : list Event),
        forallb (fun e => negb (is_route e)) es = true ->
        forallb (fun e => negb (is_route e)) es' = true ->
        let c := exec (mount (Some id)) es in
        kgUrl (state c) <> [] ->
        kgUrl (state c) = kg_endpoint id
        /\ kgUrl (state (exec c es')) = kgUrl (state c))
  /\ (forall (c : Component) (cl : Closure) (settled : Settled Fetched),
        reachable c -> kgUrl (state c) <> [] -> timer c = Some cl ->
        existsb sets_kgUrl (poll cl settled) = false
        /\ kgUrl (commit cl settled (state c)) = kgUrl (state c)).
Proof.
  split; [|split].
  - intros r. simpl. rewrite orb_true_iff, strict_eq_true.
    split; (intros [H|H]; [left|now right]).
    + destruct (kg_path r) as [p|]; [|discriminate].
      exists p. split; [reflexivity|]. now apply truthy_iff.
    + destruct H as [p [-> Hp]]. now apply truthy_iff.
  - intros id es es' Hes Hes' c Hset.
    assert (Hk : keyed_by id c) by (apply keyed_by_exec; [exact Hes | apply keyed_by_mount]).
    assert (Hu : kgUrl (state c) = kg_endpoint id).
    { destruct Hk as (_ & [H|H] & _); [contradiction | exact H]. }
    split; [exact Hu|]. rewrite Hu. now apply kgUrl_exec_stable.
  - intros c cl settled Hr Hset Ht.
    apply reachable_synced in Hr. unfold synced in Hr.
    destruct (mounted c); [|congruence].
    destruct Hr as [Hd Htm]. rewrite Htm, Hd in Ht.
    unfold effect_timer, current_deps in Ht. simpl in Ht.
    destruct (runId c) as [id|]; [|discriminate].
    destruct (truthy id); [|discriminate].
    injection Ht as <-.
    apply truthy_iff in Hset.
    split; [now apply poll_keeps_reference|].
    destruct settled as [[[a b] rows]|m]; [|reflexivity].
    rewrite commit_fulfilled. simpl. rewrite Hset, andb_false_r. reflexivity.
Qed.

Lemma kg_reference_is_stable_witness :
  let es := [Settle 0 (Fulfilled (Sample.fetched Sample.with_kg Sample.line1))] in
  let es' := [Tick; Settle 0 (Fulfilled (Sample.fetched Sample.with_kg Sample.line1));
              Settle 0 (Rejected (lit "Internal Server Error"))] in
  forallb (fun e => negb (is_route e)) es = true
  /\ forallb (fun e => negb (is_route e)) es' = true
  /\ kgUrl (state (exec (mount (Some Sample.A)) es)) <> []
  /\ kgUrl (state (exec (exec (mount (Some Sample.A)) es) es'))
     = kg_endpoint Sample.A.
Proof.
  cbv zeta. split; [reflexivity|]. split; [reflexivity|]. split; [discriminate|].
  destruct (proj1 (proj2 kg_reference_is_stable) Sample.A
              [Settle 0 (Fulfilled (Sample.fetched Sample.with_kg Sample.line1))]
              [Tick; Settle 0 (Fulfilled (Sample.fetched Sample.with_kg Sample.line1));
               Settle 0 (Rejected (lit "Internal Server Error"))]
              eq_refl eq_refl)
    as [H1 H2]; [discriminate|].
  now rewrite H2.
Defined.

(** ** Clearing the history *)

Lemma clearHistory_not_ok {T : Type} (resp : Api.Response T) :
  Api.ok resp = false ->
  Api.clearHistory (Fulfilled resp)
  = Rejected (or_else (Api.text resp) (Api.statusText resp)).
Proof. intros H. simpl. unfold Api.handle. now rewrite H. Qed.

(** C9: when the request succeeds the cached run list becomes the empty
    list; when it fails the list is left as it was and the failure's
    message is put in the error cell.  A request fails when [fetch] rejects,
    when the response is not ok, or when its body cannot be read. *)
Theorem clear_history_outcome {T : Type} (fetched : Settled (Api.Response T))
    (s : Dashboard.State) :
  (forall v : T, Api.clearHistory fetched = Fulfilled v ->
     Dashboard.runs (Dashboard.clear_history fetched s) = []
     /\ Dashboard.error (Dashboard.clear_history fetched s) = None)
  /\ (forall m : jsstring, Api.clearHistory fetched = Rejected m ->
        Dashboard.runs (Dashboard.clear_history fetched s) = Dashboard.runs s
        /\ Dashboard.error (Dashboard.clear_history fetched s) = Some m)
  /\ (forall resp : Api.Response T, fetched = Fulfilled resp ->
        Api.ok resp = false ->
        Api.clearHistory fetched
        = Rejected (or_else (Api.text resp) (Api.statusText resp))).
Proof.
  unfold Dashboard.clear_history. split; [|split].
  - intros v ->. split; reflexivity.
  - intros m ->. split; reflexivity.
  - intros resp -> Hok. now apply clearHistory_not_ok.
Qed.

Lemma clear_history_outcome_witness :
  Api.clearHistory Sample.cleared = Fulfilled tt
  /\ Dashboard.runs (Dashboard.clear_history Sample.cleared Sample.dashboard) = []
  /\ Api.clearHistory Sample.server_error = Rejected (lit "Internal Server Error")
  /\ Dashboard.runs (Dashboard.clear_history Sample.server_error Sample.dashboard)
     = [Sample.running; Sample.with_kg]
  /\ Dashboard.error (Dashboard.clear_history Sample.server_error Sample.dashboard)
     = Some (lit "Internal Server Error").
Proof.
  split; [reflexivity|]. split.
  - apply (proj1 (clear_history_outcome Sample.cleared Sample.dashboard) tt).
    reflexivity.
  - split; [reflexivity|].
    apply (proj1 (proj2 (clear_history_outcome Sample.server_error Sample.dashboard))
                 (lit "Internal Server Error")).
    reflexivity.
Defined.

(** ** Further properties of the run view *)

Lemma error_step (c : Component) (e : Event) :
  error (state (step c e)) = error (state c)
  \/ (is_rejection e = true /\ exists m, error (state (step c e)) = Some m).
Proof.
  destruct e as [|i settled|id|]; simpl.
  - left. now destruct (timer c).
  - destruct (nth_error (inflight c) i) as [cl|]; [|now left].
    destruct (mounted c); [|now left].
    rewrite state_render. simpl.
    destruct settled as [f|m].
    + left. apply error_commit_fulfilled.
    + right. split; [reflexivity|]. now exists m.
  - left. destruct (mounted c); [now rewrite state_render | reflexivity].
  - now left.
Qed.

(** X1: the error cell changes only when a cycle fails; once it holds a
    message, no sequence of events empties it. *)
Theorem error_is_never_cleared (c : Component) (es : list Event) :
  (forallb (fun e => negb (is_rejection e)) es = true ->
   error (state (exec c es)) = error (state c))
  /\ (error (state c) <> None -> error (state (exec c es)) <> None).
Proof.
  revert c. induction es as [|e es IH]; intros c; [now split|].
  destruct (IH (step c e)) as [IH1 IH2]. simpl. split.
  - intros H. apply andb_prop in H. destruct H as [He Hes].
    rewrite IH1 by exact Hes.
    destruct (error_step c e) as [E|[R _]]; [exact E|].
    rewrite R in He. discriminate.
  - intros H. apply IH2.
    destruct (error_step c e) as [E|[_ [m E]]]; rewrite E; [exact H | discriminate].
Qed.

Lemma error_is_never_cleared_witness :
  let c := step (mount (Some Sample.A)) (Settle 0 Sample.failing) in
  let es := [Tick; Settle 0 Sample.succeeding; Route (Some Sample.B); Tick;
             Settle 0 Sample.succeeding] in
  error (state c) <> None /\ error (state (exec c es)) <> None.
Proof.
  cbv zeta. split; [discriminate|].
  apply (proj2 (error_is_never_cleared
                  (step (mount (Some Sample.A)) (Settle 0 Sample.failing))
                  [Tick; Settle 0 Sample.succeeding; Route (Some Sample.B); Tick;
                   Settle 0 Sample.succeeding])).
  discriminate.
Defined.

(** X2: without a run id (absent or empty) the view never polls: whatever
    ticks, settlements or unmount follow, the state stays the initial one,
    no poll is in flight and there is no interval. *)
Theorem no_run_id_no_polling (id : option jsstring) (es : list Event) :
  truthy_opt id = false ->
  forallb (fun e => negb (is_route e)) es = true ->
  let c := exec (mount id) es in
  state c = initial /\ inflight c = [] /\ timer c = None.
Proof.
  intros Hid Hes.
  assert (H0 : state (mount id) = initial /\ inflight (mount id) = []
               /\ timer (mount id) = None).
  { unfold mount, effect. simpl.
    destruct id as [s|]; [|now repeat split].
    simpl in Hid. rewrite Hid. now repeat split. }
  generalize dependent (mount id). clear Hid id.
  induction es as [|e es IH]; intros c H0; [exact H0|].
  simpl in Hes. apply andb_prop in Hes. destruct Hes as [He Hes].
  simpl. apply (IH Hes). destruct H0 as (Hs & Hi & Ht).
  destruct e as [|i settled|id'|]; simpl; try discriminate.
  - rewrite Ht. now repeat split.
  - rewrite Hi. destruct i; simpl; now repeat split.
  - now repeat split.
Qed.

Lemma no_run_id_no_polling_witness :
  truthy_opt (Some []) = false
  /\ state (exec (mount (Some []))
              [Tick; Settle 0 Sample.succeeding; Tick; Unmount]) = initial.
Proof.
  split; [reflexivity|].
  apply (no_run_id_no_polling (Some [])
           [Tick; Settle 0 Sample.succeeding; Tick; Unmount]); reflexivity.
Defined.

(** X3: in every component reachable from a mount, a live interval belongs
    to a mounted view and its poll carries the current run id, which is not
    empty, and the current reference. *)
Theorem interval_polls_current_run (c : Component) (cl : Closure) :
  reachable c -> timer c = Some cl ->
  mounted c = true
  /\ runId c = Some (c_runId cl)
  /\ truthy (c_runId cl) = true
  /\ c_kgUrl cl = kgUrl (state c).
Proof.
  intros Hr Ht. apply reachable_synced in Hr. unfold synced in Hr.
  destruct (mounted c); [|congruence].
  destruct Hr as [Hd Htm]. rewrite Htm, Hd in Ht.
  unfold effect_timer, current_deps in Ht. simpl in Ht.
  destruct (runId c) as [id|]; [|discriminate].
  destruct (truthy id) eqn:E; [|discriminate].
  injection Ht as <-. simpl. now repeat split.
Qed.

Lemma interval_polls_current_run_witness :
  let c := exec (mount (Some Sample.A))
             [Settle 0 (Fulfilled (Sample.fetched Sample.with_kg Sample.line1));
              Route (Some Sample.B)] in
  reachable c
  /\ timer c = Some {| c_runId := Sample.B; c_kgUrl := kg_endpoint Sample.A |}
  /\ runId c = Some Sample.B.
Proof.
  cbv zeta.
  assert (Hr : reachable (exec (mount (Some Sample.A))
             [Settle 0 (Fulfilled (Sample.fetched Sample.with_kg Sample.line1));
              Route (Some Sample.B)])) by (eexists _, _; reflexivity).
  split; [exact Hr|]. split; [reflexivity|].
  apply (interval_polls_current_run _
           {| c_runId := Sample.B; c_kgUrl := kg_endpoint Sample.A |} Hr).
  reflexivity.
Defined.

(** X4: the interval does not wait for a poll to finish: n ticks with no
    settlement in between put n more polls in flight and leave the state
    alone. *)
Theorem ticks_stack_polls (c : Component) (cl : Closure) (n : nat) :
  timer c = Some cl ->
  inflight (exec c (repeat Tick n)) = inflight c ++ repeat cl n
  /\ state (exec c (repeat Tick n)) = state c
  /\ timer (exec c (repeat Tick n)) = Some cl.
Proof.
  revert c. induction n as [|n IH]; intros c Ht.
  - simpl. now rewrite app_nil_r.
  - change (exec c (repeat Tick (S n)))
      with (exec (step c Tick) (repeat Tick n)).
    destruct (IH (step c Tick)) as (Hi & Hs & Htm).
    { simpl. now rewrite Ht. }
    rewrite Hi, Hs, Htm. simpl. rewrite Ht. simpl.
    now rewrite <- app_assoc.
Qed.

Lemma ticks_stack_polls_witness :
  timer (mount (Some Sample.A)) = Some Sample.closureA
  /\ inflight (exec (mount (Some Sample.A)) (repeat Tick 3))
     = [Sample.closureA; Sample.closureA; Sample.closureA; Sample.closureA].
Proof.
  split; [reflexivity|].
  apply (proj1 (ticks_stack_polls (mount (Some Sample.A)) Sample.closureA 3 eq_refl)).
Defined.

Lemma nth_error_remove_nth_before {A : Type} (i j : nat) (l : list A) (x : A) :
  i < j -> nth_error l i = Some x -> nth_error (remove_nth j l) i = Some x.
Proof.
  intros Hij Hx. unfold remove_nth.
  assert (Hlen : i < length l) by (apply nth_error_Some; congruence).
  rewrite nth_error_app1 by (rewrite length_firstn; lia).
  rewrite nth_error_firstn.
  destruct (Nat.ltb_spec i j); [exact Hx | lia].
Qed.

Lemma state_step_settle_fulfilled (c : Component) (i : nat) (cl : Closure)
    (f : Fetched) :
  mounted c = true -> nth_error (inflight c) i = Some cl ->
  run (state (step c (Settle i (Fulfilled f)))) = Some (Payload.run (fst (fst f)))
  /\ logText (state (step c (Settle i (Fulfilled f)))) = Payload.log (snd (fst f))
  /\ results (state (step c (Settle i (Fulfilled f)))) = snd f.
Proof.
  intros Hm Hi. rewrite (state_step_settle c i cl (Fulfilled f) Hm Hi).
  destruct f as [[a b] rows]. rewrite commit_fulfilled. simpl.
  now rewrite reconcile_incoming.
Qed.

(** X5: polls are not applied in the order they were started.  When a poll
    started earlier settles after one started later, its record, log and
    rows replace those of the later poll. *)
Theorem late_settlement_overwrites (c : Component) (i j : nat)
    (cli clj : Closure) (fi fj : Fetched) :
  mounted c = true -> i < j ->
  nth_error (inflight c) i = Some cli ->
  nth_error (inflight c) j = Some clj ->
  let c' := exec c [Settle j (Fulfilled fj); Settle i (Fulfilled fi)] in
  run (state c') = Some (Payload.run (fst (fst fi)))
  /\ logText (state c') = Payload.log (snd (fst fi))
  /\ results (state c') = snd fi.
Proof.
  intros Hm Hij Hi Hj c'. subst c'.
  change (exec c [Settle j (Fulfilled fj); Settle i (Fulfilled fi)])
    with (step (step c (Settle j (Fulfilled fj))) (Settle i (Fulfilled fi))).
  apply (state_step_settle_fulfilled _ i cli).
  - simpl. rewrite Hj, Hm. now rewrite mounted_render.
  - simpl. rewrite Hj, Hm. apply nth_error_inflight_render. simpl.
    now apply nth_error_remove_nth_before.
Qed.

Lemma late_settlement_overwrites_witness :
  let c := step (mount (Some Sample.A)) Tick in
  let older := Sample.fetched Sample.running Sample.line1 in
  let newer := Sample.fetched Sample.running (Sample.line1 ++ Sample.line2) in
  mounted c = true /\ 0 < 1
  /\ logText (state (exec c [Settle 1 (Fulfilled newer)])) = Sample.line1 ++ Sample.line2
  /\ logText (state (exec c [Settle 1 (Fulfilled newer); Settle 0 (Fulfilled older)]))
     = Sample.line1.
Proof.
  cbv zeta. split; [reflexivity|]. split; [lia|]. split; [reflexivity|].
  apply (late_settlement_overwrites (step (mount (Some Sample.A)) Tick) 0 1
           Sample.closureA Sample.closureA
           (Sample.fetched Sample.running Sample.line1)
           (Sample.fetched Sample.running (Sample.line1 ++ Sample.line2))
           eq_refl (le_n 1) eq_refl eq_refl).
Defined.

(** X6: in a view whose run id stays the same, whenever the section shows
    the frame its source is the graph path of that run. *)
Theorem frame_shows_own_run (id : jsstring) (es : list Event) (src : jsstring) :
  forallb (fun e => negb (is_route e)) es = true ->
  kg_section (state (exec (mount (Some id)) es)) = KgFrame src ->
  src = kg_endpoint id.
Proof.
  intros Hes Hsec.
  assert (Hk : keyed_by id (exec (mount (Some id)) es))
    by (apply keyed_by_exec; [exact Hes | apply keyed_by_mount]).
  destruct Hk as (_ & Hu & _).
  unfold kg_section in Hsec.
  destruct (kg_available _); [|discriminate].
  destruct (truthy (kgUrl _)) eqn:E; [|discriminate].
  injection Hsec as <-.
  destruct Hu as [Hu|Hu]; [|exact Hu].
  rewrite Hu in E. discriminate.
Qed.

Lemma frame_shows_own_run_witness :
  let es := [Settle 0 (Fulfilled (Sample.fetched Sample.with_kg Sample.line1)); Tick] in
  forallb (fun e => negb (is_route e)) es = true
  /\ exists src : jsstring,
       kg_section (state (exec (mount (Some Sample.A)) es)) = KgFrame src
       /\ src = kg_endpoint Sample.A.
Proof.
  cbv zeta. split; [reflexivity|].
  exists (lit "/api/runs/A/kg"). split; [reflexivity|].
  apply (frame_shows_own_run Sample.A
           [Settle 0 (Fulfilled (Sample.fetched Sample.with_kg Sample.line1)); Tick]
           (lit "/api/runs/A/kg") eq_refl eq_refl).
Defined.

Lemma kgUrl_step_without_kg (c : Component) (e : Event) :
  without_kg e = true -> kgUrl (state (step c e)) = kgUrl (state c).
Proof.
  intros H. destruct e as [|i settled|id|]; simpl.
  - now destruct (timer c).
  - destruct (nth_error (inflight c) i) as [cl|]; [|reflexivity].
    destruct (mounted c); [|reflexivity].
    rewrite state_render. simpl.
    destruct settled as [[[a b] rows]|m]; [|reflexivity].
    rewrite commit_fulfilled. simpl. simpl in H.
    apply negb_true_iff in H. now rewrite H.
  - destruct (mounted c); [now rewrite state_render | reflexivity].
  - reflexivity.
Qed.

(** X7: as long as no response carries a [kg_path] the reference stays
    empty, whatever else happens; a run reported as running then shows the
    placeholder of a graph that is generated but not loaded, never the
    frame. *)
Theorem no_kg_path_no_frame (id : option jsstring) (es : list Event) :
  forallb without_kg es = true ->
  let c := exec (mount id) es in
  kgUrl (state c) = []
  /\ (forall r : RunRecord,
        run (state c) = Some r -> status r = lit "running" ->
        kg_section (state c) = KgLoading).
Proof.
  intros Hes c.
  assert (Hu : kgUrl (state c) = []).
  { subst c.
    assert (H0 : kgUrl (state (mount id)) = [])
      by (unfold mount; now rewrite state_effect).
    generalize dependent (mount id).
    induction es as [|e es IH]; intros c0 H0; [exact H0|].
    simpl in Hes. apply andb_prop in Hes. destruct Hes as [He Hes].
    simpl. apply (IH Hes). now rewrite kgUrl_step_without_kg. }
  split; [exact Hu|].
  intros r Hr Hs. unfold kg_section. rewrite Hr, Hu. simpl.
  rewrite Hs, strict_eq_refl, orb_true_r. reflexivity.
Qed.

Lemma no_kg_path_no_frame_witness :
  let es := [Settle 0 (Fulfilled (Sample.fetched Sample.running Sample.line1)); Tick;
             Settle 0 Sample.failing] in
  forallb without_kg es = true
  /\ kg_section (state (exec (mount (Some Sample.A)) es)) = KgLoading.
Proof.
  cbv zeta. split; [reflexivity|].
  apply (proj2 (no_kg_path_no_frame (Some Sample.A)
                  [Settle 0 (Fulfilled (Sample.fetched Sample.running Sample.line1));
                   Tick; Settle 0 Sample.failing] eq_refl) Sample.running);
    reflexivity.
Defined.

Lemma strict_eq_nil_endpoint (id : jsstring) : strict_eq [] (kg_endpoint id) = false.
Proof.
  unfold strict_eq. destruct (jsstring_dec [] (kg_endpoint id)) as [E|_];
    [discriminate E | reflexivity].
Qed.

(** X8: the first response with a [kg_path] sets the reference and, the
    reference being a dependency of the effect, restarts it: the interval
    is replaced by one whose poll sees the reference, and one more poll is
    sent at once. *)
Theorem first_reference_restarts_polling (c : Component) (i : nat) (cl : Closure)
    (id : jsstring) (f : Fetched) :
  reachable c -> mounted c = true ->
  runId c = Some id -> truthy id = true ->
  kgUrl (state c) = [] ->
  nth_error (inflight c) i = Some cl -> c_kgUrl cl = [] ->
  truthy_opt (kg_path (Payload.run (fst (fst f)))) = true ->
  let c' := step c (Settle i (Fulfilled f)) in
  let cl' := {| c_runId := id; c_kgUrl := kg_endpoint (c_runId cl) |} in
  kgUrl (state c') = kg_endpoint (c_runId cl)
  /\ timer c' = Some cl'
  /\ inflight c' = remove_nth i (inflight c) ++ [cl'].
Proof.
  intros Hr Hm Hid Htr Hu Hi Hcl Hkg c' cl'.
  apply reachable_synced in Hr. unfold synced in Hr. rewrite Hm in Hr.
  destruct Hr as [Hd _].
  assert (Hk : kgUrl (commit cl (Fulfilled f) (state c))
               = kg_endpoint (c_runId cl)).
  { destruct f as [[a b] rows]. simpl in Hkg.
    rewrite commit_fulfilled. simpl. now rewrite Hkg, Hcl. }
  subst c' cl'. unfold step. rewrite Hi, Hm. cbv beta iota.
  match goal with |- context [render ?r] => set (x := r) end.
  assert (E : deps_eqb (deps x) (current_deps x) = false).
  { unfold x, current_deps. cbn [deps runId state]. rewrite Hk, Hd.
    unfold current_deps, deps_eqb. cbn [fst snd]. rewrite Hu.
    now rewrite strict_eq_nil_endpoint, andb_false_r. }
  unfold render. rewrite E. unfold effect.
  replace (runId x) with (Some id) by (symmetry; exact Hid).
  rewrite Htr. cbn [state timer inflight]. unfold x. cbn [state inflight].
  rewrite Hk. now repeat split.
Qed.

Lemma first_reference_restarts_polling_witness :
  let c := mount (Some Sample.A) in
  let f := Sample.fetched Sample.with_kg Sample.line1 in
  reachable c /\ mounted c = true /\ runId c = Some Sample.A
  /\ truthy Sample.A = true /\ kgUrl (state c) = []
  /\ nth_error (inflight c) 0 = Some Sample.closureA
  /\ inflight (step c (Settle 0 (Fulfilled f)))
     = [{| c_runId := Sample.A; c_kgUrl := kg_endpoint Sample.A |}].
Proof.
  cbv zeta.
  assert (Hr : reachable (mount (Some Sample.A)))
    by (exists (Some Sample.A), []; reflexivity).
  repeat (split; [first [exact Hr | reflexivity]|]).
  apply (first_reference_restarts_polling (mount (Some Sample.A)) 0 Sample.closureA
           Sample.A (Sample.fetched Sample.with_kg Sample.line1)
           Hr eq_refl eq_refl eq_refl eq_refl eq_refl eq_refl eq_refl).
Defined.

(** X9: a render in which the route's run id has not changed does not
    touch the interval, the polls in flight or the state. *)
Theorem same_route_keeps_polling (c : Component) :
  reachable c -> mounted c = true -> step c (Route (runId c)) = c.
Proof.
  intros Hr Hm. apply reachable_synced in Hr. unfold synced in Hr.
  rewrite Hm in Hr. destruct Hr as [Hd _].
  simpl. rewrite Hm. unfold render.
  destruct c as [mo ri st de ti inf]. simpl in *. subst mo.
  unfold current_deps in *. simpl in *. rewrite Hd, deps_eqb_refl. reflexivity.
Qed.

Lemma same_route_keeps_polling_witness :
  let c := step (mount (Some Sample.A)) Tick in
  reachable c /\ mounted c = true /\ step c (Route (Some Sample.A)) = c.
Proof.
  cbv zeta.
  assert (Hr : reachable (step (mount (Some Sample.A)) Tick))
    by (exists (Some Sample.A), [Tick]; reflexivity).
  split; [exact Hr|]. split; [reflexivity|].
  apply (same_route_keeps_polling (step (mount (Some Sample.A)) Tick) Hr eq_refl).
Defined.

Lemma pinned_render (id : jsstring) (c : Component) : pinned id c -> pinned id (render c).
Proof.
  intros (Hu & Hf & Ht). unfold render.
  destruct (deps_eqb _ _); [unfold pinned; auto|].
  unfold effect.
  destruct (runId c) as [rid|]; [destruct (truthy rid)|]; unfold pinned; simpl;
    (split; [exact Hu|]); split; auto; try discriminate.
  - apply Forall_app. split; [exact Hf|].
    apply Forall_cons; [|apply Forall_nil]. simpl. right. now rewrite Hu.
  - intros cl E. injection E as <-. simpl. right. now rewrite Hu.
Qed.

Lemma pinned_step (id : jsstring) (c : Component) (e : Event) :
  pinned id c -> pinned id (step c e).
Proof.
  intros Hp. pose proof Hp as (Hu & Hf & Ht).
  destruct e as [|i settled|id'|]; simpl.
  - destruct (timer c) as [cl|] eqn:E; [|exact Hp].
    unfold pinned; simpl. split; [exact Hu|]. split.
    + apply Forall_app. split; [exact Hf|].
      apply Forall_cons; [|apply Forall_nil]. now apply Ht.
    + intros cl0 E0. injection E0 as <-. now apply Ht.
  - destruct (nth_error (inflight c) i) as [cl|] eqn:E; [|exact Hp].
    assert (Hcl : c_runId cl = id \/ truthy (c_kgUrl cl) = true).
    { apply nth_error_In in E. rewrite Forall_forall in Hf. now apply Hf. }
    destruct (mounted c).
    + apply pinned_render. unfold pinned; simpl.
      split; [|split; [now apply Forall_remove_nth | exact Ht]].
      destruct settled as [[[a b] rows]|m]; [|exact Hu].
      rewrite commit_fulfilled. simpl.
      destruct Hcl as [<- | Hcl].
      * now destruct (truthy_opt _ && negb _).
      * now rewrite Hcl, andb_false_r.
    + unfold pinned; simpl.
      split; [exact Hu|]. split; [now apply Forall_remove_nth | exact Ht].
  - destruct (mounted c); [|exact Hp].
    apply pinned_render. unfold pinned; simpl. auto.
  - unfold pinned; simpl. split; [exact Hu|]. split; [exact Hf|]. discriminate.
Qed.

Lemma pinned_of_keyed_by (id : jsstring) (c : Component) :
  keyed_by id c -> kgUrl (state c) <> [] -> pinned id c.
Proof.
  intros (_ & Hu & Hf & Ht) Hset. unfold pinned.
  split; [destruct Hu; [contradiction | assumption]|]. split.
  - eapply Forall_impl; [|exact Hf]. simpl. auto.
  - intros cl E. left. now apply Ht.
Qed.

(** X10: the reference is never reset.  Once it has been set in a view of
    run [id], it remains the graph path of run [id] through every later
    event, changes of the route's run id included. *)
Theorem reference_survives_route_changes (id : jsstring) (es es' : list Event) :
  forallb (fun e => negb (is_route e)) es = true ->
  kgUrl (state (exec (mount (Some id)) es)) <> [] ->
  kgUrl (state (exec (exec (mount (Some id)) es) es')) = kg_endpoint id.
Proof.
  intros Hes Hset.
  assert (Hp : pinned id (exec (mount (Some id)) es)).
  { apply pinned_of_keyed_by; [|exact Hset].
    apply keyed_by_exec; [exact Hes | apply keyed_by_mount]. }
  generalize dependent (exec (mount (Some id)) es). clear Hes.
  induction es' as [|e es' IH]; intros c _ Hp.
  - now destruct Hp.
  - simpl. apply IH.
    + destruct (pinned_step id c e Hp) as [Hu _]. rewrite Hu. discriminate.
    + now apply pinned_step.
Qed.

Lemma reference_survives_route_changes_witness :
  let es := [Settle 0 (Fulfilled (Sample.fetched Sample.with_kg Sample.line1))] in
  let es' := [Route (Some Sample.B);
              Settle 1 (Fulfilled (Sample.fetched Sample.with_kg_B Sample.line1));
              Tick] in
  forallb (fun e => negb (is_route e)) es = true
  /\ kgUrl (state (exec (mount (Some Sample.A)) es)) <> []
  /\ runId (exec (exec (mount (Some Sample.A)) es) es') = Some Sample.B
  /\ kgUrl (state (exec (exec (mount (Some Sample.A)) es) es')) = kg_endpoint Sample.A.
Proof.
  cbv zeta. split; [reflexivity|]. split; [discriminate|]. split; [reflexivity|].
  apply (reference_survives_route_changes Sample.A
           [Settle 0 (Fulfilled (Sample.fetched Sample.with_kg Sample.line1))]
           [Route (Some Sample.B);
            Settle 1 (Fulfilled (Sample.fetched Sample.with_kg_B Sample.line1));
            Tick]).
  - reflexivity.
  - discriminate.
Defined.

(** ** Requests and the cycle *)

Lemma promise_all_only_second {A B C : Type} (a : Timed A) (b : Timed B) (c : Timed C)
    (x : A) (z : C) (m : jsstring) :
  outcome a = Fulfilled x -> outcome b = Rejected m -> outcome c = Fulfilled z ->
  promise_all a b c = Rejected m.
Proof.
  unfold promise_all, rejection. intros -> -> ->. reflexivity.
Qed.

(** X11: when the log request is answered with a response that is not ok
    while the two other requests succeed, the cycle stores the response
    body, or the status text when the body is empty, in the error cell, and
    drops the record and the rows that did arrive. *)
Theorem failed_log_response_discards_cycle (c : Component) (i : nat) (cl : Closure)
    (a : Timed (Api.Response Payload.RunResp))
    (b : Timed (Api.Response Payload.LogResp))
    (d : Timed (Api.Response (list RunResultRow)))
    (ra : Payload.RunResp) (rows : list RunResultRow)
    (resp : Api.Response Payload.LogResp) :
  reachable c -> mounted c = true -> nth_error (inflight c) i = Some cl ->
  Requests.fetchRun (outcome a) = Fulfilled ra ->
  Requests.fetchResults (outcome d) = Fulfilled rows ->
  outcome b = Fulfilled resp -> Api.ok resp = false ->
  let c' := step c (Settle i (Requests.cycle a b d)) in
  error (state c') = Some (or_else (Api.text resp) (Api.statusText resp))
  /\ run (state c') = run (state c)
  /\ results (state c') = results (state c)
  /\ logText (state c') = logText (state c)
  /\ kgUrl (state c') = kgUrl (state c).
Proof.
  intros Hr Hm Hi Ha Hd Hb Hok c'. subst c'.
  assert (E : Requests.cycle a b d
              = Rejected (or_else (Api.text resp) (Api.statusText resp))).
  { unfold Requests.cycle.
    apply (promise_all_only_second _ _ _ ra rows); simpl; auto.
    rewrite Hb. unfold Requests.fetchLog, Requests.request, Api.handle.
    now rewrite Hok. }
  rewrite E. apply reachable_synced in Hr.
  rewrite (step_settle_rejected c i cl _ Hr Hm Hi). simpl. now repeat split.
Qed.

Lemma failed_log_response_discards_cycle_witness :
  let ok_run := Sample.at_ 2 (Fulfilled
                  {| Api.ok := true; Api.text := []; Api.statusText := lit "OK";
                     Api.json := Fulfilled {| Payload.run := Sample.running |} |}) in
  let bad_log : Timed (Api.Response Payload.LogResp) :=
    Sample.at_ 1 (Fulfilled
                  {| Api.ok := false; Api.text := [];
                     Api.statusText := lit "Not Found"; Api.json := Rejected [] |}) in
  let ok_rows := Sample.at_ 3 (Fulfilled
                  {| Api.ok := true; Api.text := []; Api.statusText := lit "OK";
                     Api.json := Fulfilled (@nil RunResultRow) |}) in
  reachable (mount (Some Sample.A))
  /\ error (state (step (mount (Some Sample.A))
                        (Settle 0 (Requests.cycle ok_run bad_log ok_rows))))
     = Some (lit "Not Found").
Proof.
  cbv zeta.
  assert (Hr : reachable (mount (Some Sample.A)))
    by (exists (Some Sample.A), []; reflexivity).
  split; [exact Hr|].
  apply (failed_log_response_discards_cycle (mount (Some Sample.A)) 0 Sample.closureA
           (Sample.at_ 2 (Fulfilled
              {| Api.ok := true; Api.text := []; Api.statusText := lit "OK";
                 Api.json := Fulfilled {| Payload.run := Sample.running |} |}))
           (Sample.at_ 1 (Fulfilled
              {| Api.ok := false; Api.text := [];
                 Api.statusText := lit "Not Found"; Api.json := Rejected [] |}))
           (Sample.at_ 3 (Fulfilled
              {| Api.ok := true; Api.text := []; Api.statusText := lit "OK";
                 Api.json := Fulfilled (@nil RunResultRow) |}))
           {| Payload.run := Sample.running |} (@nil RunResultRow)
           {| Api.ok := false; Api.text := []; Api.statusText := lit "Not Found";
              Api.json := Rejected [] |}
           Hr eq_refl eq_refl eq_refl eq_refl eq_refl eq_refl).
Defined.

(** ** The form of the dashboard *)

(** X12: submitting without a dataset only sets the message asking for
    one: no request, no navigation, the loading flag untouched.  With a
    dataset exactly one run is requested; whether the request succeeds or
    fails the loading flag ends up false; the view navigates to the new run
    exactly when the request succeeds, and shows the failure's message
    otherwise. *)
Theorem submit_outcomes (inp : Form.Inputs) (settled : Settled Form.Created)
    (s : Dashboard.State) :
  (let actions := Form.handleSubmit None inp settled in
   filter Form.is_create actions = []
   /\ filter Form.is_navigate actions = []
   /\ Dashboard.error (Form.perform actions s) = Some Form.select_dataset_message
   /\ Dashboard.loading (Form.perform actions s) = Dashboard.loading s)
  /\ (forall d : Form.DatasetOption,
        let actions := Form.handleSubmit (Some d) inp settled in
        filter Form.is_create actions = [Form.CreateRun (Form.create_payload d inp)]
        /\ Dashboard.loading (Form.perform actions s) = false
        /\ Dashboard.runs (Form.perform actions s) = Dashboard.runs s
        /\ match settled with
           | Fulfilled resp =>
               filter Form.is_navigate actions
               = [Form.Navigate (lit "/runs/" ++ Form.created_run_id resp)]
               /\ Dashboard.error (Form.perform actions s) = None
           | Rejected m =>
               filter Form.is_navigate actions = []
               /\ Dashboard.error (Form.perform actions s) = Some m
           end).
Proof.
  split.
  - cbv zeta. now repeat split.
  - intros d. cbv zeta. destruct settled as [resp|m]; now repeat split.
Qed.

Lemma or_undefined_spec (f : Form.NumberField) :
  Form.or_undefined f <> Some 0%Z
  /\ (Form.or_undefined f = None <-> f = Form.Blank \/ f = Form.Num 0)
  /\ (forall n : Z, Form.or_undefined f = Some n -> f = Form.Num n).
Proof.
  destruct f as [|n]; unfold Form.or_undefined; simpl.
  - split; [discriminate|]. split; [tauto | discriminate].
  - destruct (Z.eqb_spec n 0) as [->|Hn]; simpl.
    + split; [discriminate|]. split; [tauto | discriminate].
    + split; [congruence|]. split.
      * split; [discriminate | intros [H|H]; congruence].
      * congruence.
Qed.

(** X13: in the payload of [createRun] a limit, top-k or row cap that is
    blank or 0 is left out, so none of these fields is ever sent as 0; a
    field that is sent carries the number typed; the data file and sector
    map are those of the dataset option, the worker count, chunk size and
    timeout those of the form. *)
Theorem payload_omits_blank_and_zero (d : Form.DatasetOption) (inp : Form.Inputs) :
  let p := Form.create_payload d inp in
  Forall (fun field : Form.NumberField * option Z =>
            snd field <> Some 0%Z
            /\ (snd field = None <-> fst field = Form.Blank \/ fst field = Form.Num 0)
            /\ (forall n : Z, snd field = Some n -> fst field = Form.Num n))
         [(Form.factLimit inp, Form.p_fact_limit p);
          (Form.currFactLimit inp, Form.p_current_fact_limit p);
          (Form.topK inp, Form.p_top_k p);
          (Form.maxRows inp, Form.p_max_rows p)]
  /\ Form.p_data_file p = Form.data_file d
  /\ Form.p_sector_map p = Form.sector_map d
  /\ Form.p_max_workers p = Form.maxWorkers inp
  /\ Form.p_chunk_size p = Form.chunkSize inp
  /\ Form.p_timeout p = Form.timeout inp.
Proof.
  cbv zeta. split; [|now repeat split].
  repeat (apply Forall_cons; [apply or_undefined_spec|]). apply Forall_nil.
Qed.

Lemma payload_omits_blank_and_zero_witness :
  let d := {| Form.label := lit "demo"; Form.data_file := lit "demo.csv";
              Form.sector_map := lit "map.csv"; Form.description := None |} in
  let inp := {| Form.selectedDataset := lit "demo.csv"; Form.maxWorkers := 10;
                Form.chunkSize := 300; Form.timeout := 120;
                Form.factLimit := Form.Num 0; Form.currFactLimit := Form.Blank;
                Form.topK := Form.Num 5; Form.maxRows := Form.Blank |} in
  Form.p_fact_limit (Form.create_payload d inp) = None
  /\ Form.factLimit inp = Form.Num 0
  /\ Form.p_top_k (Form.create_payload d inp) = Some 5%Z.
Proof.
  cbv zeta. split; [|split; reflexivity].
  pose proof (proj1 (payload_omits_blank_and_zero
                {| Form.label := lit "demo"; Form.data_file := lit "demo.csv";
                   Form.sector_map := lit "map.csv"; Form.description := None |}
                {| Form.selectedDataset := lit "demo.csv"; Form.maxWorkers := 10;
                   Form.chunkSize := 300; Form.timeout := 120;
                   Form.factLimit := Form.Num 0; Form.currFactLimit := Form.Blank;
                   Form.topK := Form.Num 5; Form.maxRows := Form.Blank |})) as H.
  apply Forall_inv in H. simpl in H.
  apply (proj2 (proj1 (proj2 H))). now right.
Defined.

(** X14: the options and the run list are loaded independently.  The
    datasets, the run list, the selection and the loading flag end up the
    same whichever response comes first; the selection becomes the data file
    of the first dataset and is left alone when the server has none; only
    the error cell depends on the order, and only when both requests fail:
    it then holds the message of the one that failed last. *)
Theorem initial_load_order (o : Settled (list Form.DatasetOption))
    (r : Settled (list RunRecord)) (c : Form.Cells) :
  let c1 := Form.load_all (Form.on_options o ++ Form.on_runs r) c in
  let c2 := Form.load_all (Form.on_runs r ++ Form.on_options o) c in
  Form.datasets c1 = Form.datasets c2
  /\ Dashboard.runs (Form.dash c1) = Dashboard.runs (Form.dash c2)
  /\ Dashboard.selectedDataset (Form.dash c1) = Dashboard.selectedDataset (Form.dash c2)
  /\ Dashboard.loading (Form.dash c1) = Dashboard.loading (Form.dash c2)
  /\ (forall rs, r = Fulfilled rs -> Dashboard.runs (Form.dash c1) = rs /\ c1 = c2)
  /\ (forall ds, o = Fulfilled ds ->
        Form.datasets c1 = ds /\ c1 = c2
        /\ Dashboard.selectedDataset (Form.dash c1)
           = match ds with
             | d :: _ => Form.data_file d
             | [] => Dashboard.selectedDataset (Form.dash c)
             end)
  /\ (forall mo mr, o = Rejected mo -> r = Rejected mr ->
        Dashboard.error (Form.dash c1) = Some mr
        /\ Dashboard.error (Form.dash c2) = Some mo
        /\ Form.datasets c1 = Form.datasets c
        /\ Dashboard.runs (Form.dash c1) = Dashboard.runs (Form.dash c)).
Proof.
  cbv zeta.
  destruct o as [[|d ds]|mo], r as [rs|mr]; simpl;
    repeat split; intros; try discriminate;
    repeat match goal with
           | H : Fulfilled _ = Fulfilled _ |- _ => injection H as <-
           | H : Rejected _ = Rejected _ |- _ => injection H as <-
           end;
    reflexivity.
Qed.

Lemma initial_load_order_witness :
  let c := {| Form.datasets := [];
              Form.dash := Sample.dashboard |} in
  Dashboard.error
    (Form.dash (Form.load_all (Form.on_options (Rejected (lit "options down"))
                               ++ Form.on_runs (Rejected (lit "runs down"))) c))
  = Some (lit "runs down")
  /\ Dashboard.runs
       (Form.dash (Form.load_all (Form.on_options (Rejected (lit "options down"))
                                  ++ Form.on_runs (Rejected (lit "runs down"))) c))
     = [Sample.running; Sample.with_kg].
Proof.
  cbv zeta.
  destruct (proj2 (proj2 (proj2 (proj2 (proj2 (proj2
              (initial_load_order (Rejected (lit "options down"))
                 (Rejected (lit "runs down"))
                 {| Form.datasets := []; Form.dash := Sample.dashboard |}))))))
              (lit "options down") (lit "runs down") eq_refl eq_refl)
    as (H1 & _ & _ & H4).
  split; [exact H1 | exact H4].
Defined.

Lemma param_cases (number_text : Z -> jsstring) (key : string) (v : option Z) :
  Form.param number_text key v = []
  \/ exists n : Z, n <> 0%Z /\ Form.param number_text key v = [(lit key, number_text n)].
Proof.
  unfold Form.param. destruct v as [n|]; [|now left].
  destruct (Z.eqb_spec n 0); [now left|]. right. now exists n.
Qed.

Lemma param_unfilled (number_text : Z -> jsstring) (key : string)
    (f : Form.NumberField) :
  Form.filled f = false ->
  Form.param number_text key (Form.number_or_undefined f) = [].
Proof.
  intros H. unfold Form.number_or_undefined. now rewrite H.
Qed.

(** X15: the estimating effect sends nothing while no dataset is
    selected, whereas the estimate button sends its request all the same,
    with an empty data file.  A request starts with the data file, names no
    parameter twice, and every further parameter is the text of a number
    other than 0.  With a dataset selected and top-k and both fact limits
    blank or 0, effect and button send the same request. *)
Theorem estimate_requests (number_text : Z -> jsstring) (inp : Form.Inputs) :
  (Form.doEstimate number_text inp = None <-> Form.selectedDataset inp = [])
  /\ hd_error (Form.estimate_click number_text inp)
     = Some (lit "data_file", Form.selectedDataset inp)
  /\ (Form.selectedDataset inp <> [] ->
      Form.filled (Form.topK inp) = false ->
      Form.filled (Form.factLimit inp) = false ->
      Form.filled (Form.currFactLimit inp) = false ->
      Form.doEstimate number_text inp = Some (Form.estimate_click number_text inp))
  /\ (forall q : list (jsstring * jsstring),
        Form.doEstimate number_text inp = Some q ->
        hd_error q = Some (lit "data_file", Form.selectedDataset inp)
        /\ NoDup (map fst q)
        /\ Forall (fun kv => exists n : Z, n <> 0%Z /\ snd kv = number_text n) (tl q)).
Proof.
  unfold Form.doEstimate, Form.estimate_click.
  split; [|split; [reflexivity|split]].
  - destruct (Form.selectedDataset inp); simpl; split; congruence.
  - intros Hsel Hk Hf Hc.
    destruct (Form.selectedDataset inp) as [|u s]; [contradiction|]. simpl.
    unfold Form.estimateRun.
    now rewrite !(param_unfilled number_text _ _ Hk),
                !(param_unfilled number_text _ _ Hf),
                !(param_unfilled number_text _ _ Hc).
  - intros q. destruct (truthy (Form.selectedDataset inp)); simpl; [|discriminate].
    intros E. injection E as <-. unfold Form.estimateRun.
    split; [reflexivity|].
    destruct (param_cases number_text "max_rows"
                (Form.number_or_undefined (Form.maxRows inp))) as [-> | (n1 & Hn1 & ->)];
    destruct (param_cases number_text "top_k"
                (Form.number_or_undefined (Form.topK inp))) as [-> | (n2 & Hn2 & ->)];
    destruct (param_cases number_text "fact_limit"
                (Form.number_or_undefined (Form.factLimit inp))) as [-> | (n3 & Hn3 & ->)];
    destruct (param_cases number_text "current_fact_limit"
                (Form.number_or_undefined (Form.currFactLimit inp)))
      as [-> | (n4 & Hn4 & ->)];
    (split;
     [ simpl; repeat (apply NoDup_cons; [|]); try apply NoDup_nil;
       simpl; intros H;
       repeat (destruct H as [H|H]; [vm_compute in H; discriminate H|]); exact H
     | simpl;
       repeat (apply Forall_cons; [eexists; (split; [|reflexivity]); assumption|]);
       apply Forall_nil ]).
Qed.

Lemma estimate_requests_witness :
  let text := fun n : Z => lit (if (n =? 5)%Z then "5" else "?") in
  let inp := {| Form.selectedDataset := lit "demo.csv"; Form.maxWorkers := 10;
                Form.chunkSize := 300; Form.timeout := 120;
                Form.factLimit := Form.Num 0; Form.currFactLimit := Form.Num 0;
                Form.topK := Form.Num 5; Form.maxRows := Form.Blank |} in
  Form.doEstimate text inp
  = Some [(lit "data_file", lit "demo.csv"); (lit "top_k", lit "5")]
  /\ NoDup (map fst [(lit "data_file", lit "demo.csv"); (lit "top_k", lit "5")]).
Proof.
  cbv zeta. split; [reflexivity|].
  apply (proj2 (proj2 (proj2 (estimate_requests
                  (fun n : Z => lit (if (n =? 5)%Z then "5" else "?"))
                  {| Form.selectedDataset := lit "demo.csv"; Form.maxWorkers := 10;
                     Form.chunkSize := 300; Form.timeout := 120;
                     Form.factLimit := Form.Num 0; Form.currFactLimit := Form.Num 0;
                     Form.topK := Form.Num 5; Form.maxRows := Form.Blank |})))
               [(lit "data_file", lit "demo.csv"); (lit "top_k", lit "5")] eq_refl).
Defined.

(** ** [formatDate] *)

(** X16: for whole timestamps, [formatDate] answers ['-'] for a missing or
    zero timestamp; it formats a timestamp of at most 8 640 000 000 000 in
    size as that many seconds, which includes every present-day timestamp
    given in milliseconds; only beyond that size is the timestamp itself
    taken as milliseconds, and beyond 8 640 000 000 000 000 the answer is
    ['Invalid Date']. *)
Theorem formatDate_branches (toLocaleString : Z -> jsstring) :
  Form.formatDate toLocaleString None = lit "-"
  /\ Form.formatDate toLocaleString (Some 0%Z) = lit "-"
  /\ (forall ts : Z,
        ts <> 0%Z -> (Z.abs ts <= 8640000000000)%Z ->
        Form.formatDate toLocaleString (Some ts) = toLocaleString (ts * 1000)%Z)
  /\ (forall ts : Z,
        (8640000000000 < Z.abs ts <= 8640000000000000)%Z ->
        Form.formatDate toLocaleString (Some ts) = toLocaleString ts)
  /\ (forall ts : Z,
        (8640000000000000 < Z.abs ts)%Z ->
        Form.formatDate toLocaleString (Some ts) = lit "Invalid Date").
Proof.
  split; [reflexivity|]. split; [reflexivity|].
  unfold Form.formatDate, Form.date_text, Form.valid_time, Form.max_time_value.
  split; [|split]; intros ts.
  - intros Hnz Hb. destruct (Z.eqb_spec ts 0) as [|_]; [contradiction|].
    destruct (Z.leb_spec (Z.abs (ts * 1000)) 8640000000000000); [reflexivity | lia].
  - intros Hb. destruct (Z.eqb_spec ts 0) as [|_]; [lia|].
    destruct (Z.leb_spec (Z.abs (ts * 1000)) 8640000000000000); [lia|]. simpl.
    destruct (Z.leb_spec (Z.abs ts) 8640000000000000); [reflexivity | lia].
  - intros Hb. destruct (Z.eqb_spec ts 0) as [|_]; [lia|].
    destruct (Z.leb_spec (Z.abs (ts * 1000)) 8640000000000000); [lia|]. simpl.
    destruct (Z.leb_spec (Z.abs ts) 8640000000000000); [lia | reflexivity].
Qed.

Lemma formatDate_branches_witness :
  let show := fun t : Z => if (t =? 1700000000000000)%Z then lit "seconds" else lit "other" in
  (1700000000000 <> 0)%Z
  /\ (Z.abs 1700000000000 <= 8640000000000)%Z
  /\ Form.formatDate show (Some 1700000000000%Z) = lit "seconds".
Proof.
  cbv zeta. split; [discriminate|]. split; [discriminate|].
  rewrite (proj1 (proj2 (proj2 (formatDate_branches
             (fun t : Z => if (t =? 1700000000000000)%Z
                           then lit "seconds" else lit "other"))))
             1700000000000%Z); [reflexivity | discriminate | discriminate].
Defined.

(** ** What a cycle accepts *)

Lemma request_fulfilled_iff {T : Type} (fetched : Settled (Api.Response T)) (v : T) :
  Requests.request fetched = Fulfilled v
  <-> exists resp, fetched = Fulfilled resp /\ Api.ok resp = true
                   /\ Api.json resp = Fulfilled v.
Proof.
  unfold Requests.request, Api.handle. split.
  - destruct fetched as [resp|m]; [|discriminate].
    destruct (Api.ok resp) eqn:E; [|discriminate].
    intros H. now exists resp.
  - intros (resp & -> & -> & H). exact H.
Qed.

Lemma promise_all_fulfilled_iff {A B C : Type} (a : Timed A) (b : Timed B)
    (c : Timed C) (x : A) (y : B) (z : C) :
  promise_all a b c = Fulfilled (x, y, z)
  <-> outcome a = Fulfilled x /\ outcome b = Fulfilled y /\ outcome c = Fulfilled z.
Proof.
  split.
  - unfold promise_all, rejection.
    destruct a as [ta [x'|ma]], b as [tb [y'|mb]], c as [tc [z'|mc]]; simpl;
      repeat match goal with
             | |- context [Nat.leb ?u ?v] => destruct (Nat.leb u v); simpl
             end;
      intros H; try discriminate H.
    injection H as -> -> ->. now repeat split.
  - intros (Ha & Hb & Hc). now apply promise_all_fulfilled.
Qed.

(** X17: the three requests of a cycle deliver data exactly when every one
    of them got a response, the response was ok and its body could be
    read. *)
Theorem cycle_accepts_only_ok_responses
    (a : Timed (Api.Response Payload.RunResp))
    (b : Timed (Api.Response Payload.LogResp))
    (d : Timed (Api.Response (list RunResultRow)))
    (x : Payload.RunResp) (y : Payload.LogResp) (z : list RunResultRow) :
  Requests.cycle a b d = Fulfilled (x, y, z)
  <-> exists ra rb rd,
        (outcome a = Fulfilled ra /\ Api.ok ra = true /\ Api.json ra = Fulfilled x)
        /\ (outcome b = Fulfilled rb /\ Api.ok rb = true /\ Api.json rb = Fulfilled y)
        /\ (outcome d = Fulfilled rd /\ Api.ok rd = true /\ Api.json rd = Fulfilled z).
Proof.
  unfold Requests.cycle. split.
  - intros H. apply promise_all_fulfilled_iff in H. simpl in H.
    destruct H as (Ha & Hb & Hd).
    apply request_fulfilled_iff in Ha, Hb, Hd.
    destruct Ha as (ra & Ha), Hb as (rb & Hb), Hd as (rd & Hd).
    now exists ra, rb, rd.
  - intros (ra & rb & rd & Ha & Hb & Hd).
    apply promise_all_fulfilled_iff. simpl.
    split; [|split]; apply request_fulfilled_iff; eauto.
Qed.

Lemma cycle_accepts_only_ok_responses_witness :
  let page (T : Type) (v : T) : Timed (Api.Response T) :=
    Sample.at_ 1 (Fulfilled {| Api.ok := true; Api.text := [];
                               Api.statusText := lit "OK"; Api.json := Fulfilled v |}) in
  Requests.cycle (page _ {| Payload.run := Sample.running |})
                 (page _ {| Payload.log := Sample.line1 |})
                 (page _ (@nil RunResultRow))
  = Fulfilled (Sample.fetched Sample.running Sample.line1).
Proof.
  cbv zeta.
  apply (proj2 (cycle_accepts_only_ok_responses
           (Sample.at_ 1 (Fulfilled {| Api.ok := true; Api.text := [];
                                       Api.statusText := lit "OK";
                                       Api.json := Fulfilled {| Payload.run := Sample.running |} |}))
           (Sample.at_ 1 (Fulfilled {| Api.ok := true; Api.text := [];
                                       Api.statusText := lit "OK";
                                       Api.json := Fulfilled {| Payload.log := Sample.line1 |} |}))
           (Sample.at_ 1 (Fulfilled {| Api.ok := true; Api.text := [];
                                       Api.statusText := lit "OK";
                                       Api.json := Fulfilled (@nil RunResultRow) |}))
           {| Payload.run := Sample.running |} {| Payload.log := Sample.line1 |}
           (@nil RunResultRow))).
  eexists _, _, _. repeat split.
Defined.

(** ** The bar at its ends *)

Lemma maximum_value_props (r : RunRecord) :
  DOM.maximum_value (progress_props r)
  = match total_rows r with
    | Some t => if (0 <? t)%Z then t else 1%Z
    | None => 1%Z
    end.
Proof.
  unfold DOM.maximum_value, progress_props. simpl.
  now destruct (total_rows r).
Qed.

Lemma capped_ratio_ends (p : positive) (v : Z) :
  let cv := if (Z.pos p <? v)%Z then Z.pos p else if (v <? 0)%Z then 0%Z else v in
  ((inject_Z cv / inject_Z (Z.pos p) == 1)%Q <-> (Z.pos p <= v)%Z)
  /\ ((inject_Z cv / inject_Z (Z.pos p) == 0)%Q <-> (v <= 0)%Z).
Proof.
  cbv zeta. rewrite ratio_pos. unfold Qeq. simpl.
  destruct (Z.ltb_spec (Z.pos p) v); [|destruct (Z.ltb_spec v 0)]; split; lia.
Qed.

Lemma capped_ratio_monotone (p : positive) (v w : Z) :
  (v <= w)%Z ->
  (inject_Z (if (Z.pos p <? v)%Z then Z.pos p else if (v <? 0)%Z then 0%Z else v)
   / inject_Z (Z.pos p)
   <= inject_Z (if (Z.pos p <? w)%Z then Z.pos p else if (w <? 0)%Z then 0%Z else w)
      / inject_Z (Z.pos p))%Q.
Proof.
  intros H. rewrite !ratio_pos. unfold Qle. simpl.
  destruct (Z.ltb_spec (Z.pos p) v); destruct (Z.ltb_spec (Z.pos p) w);
    destruct (Z.ltb_spec v 0); destruct (Z.ltb_spec w 0); nia.
Qed.

(** X18: the bar is full exactly when [completed_rows] has reached the
    total, or has reached 1 when the total is absent or not positive; it is
    empty exactly when [completed_rows] is at most 0; and between two
    records with the same total, the one with more completed rows never has
    the shorter bar. *)
Theorem progress_bar_ends (r : RunRecord) :
  exists q : Q,
    progress_fraction r = Some q
    /\ ((q == 1)%Q
        <-> (match total_rows r with
             | Some t => if (0 <? t)%Z then t else 1%Z
             | None => 1%Z
             end <= completed_rows r)%Z)
    /\ ((q == 0)%Q <-> (completed_rows r <= 0)%Z)
    /\ (forall r' : RunRecord,
          total_rows r' = total_rows r ->
          (completed_rows r <= completed_rows r')%Z ->
          exists q' : Q, progress_fraction r' = Some q' /\ (q <= q')%Q).
Proof.
  eexists. split; [apply progress_fraction_eq|].
  unfold DOM.current_value. rewrite <- maximum_value_props.
  pose proof (maximum_value_positive (progress_props r)) as Hpos.
  assert (Hsame : forall r', total_rows r' = total_rows r ->
            DOM.maximum_value (progress_props r') = DOM.maximum_value (progress_props r))
    by (intros r' E; now rewrite !maximum_value_props, E).
  destruct (DOM.maximum_value (progress_props r)) as [|p|p] eqn:Em; try lia.
  split; [apply capped_ratio_ends|]. split; [apply capped_ratio_ends|].
  intros r' Ht Hle. eexists. split; [apply progress_fraction_eq|].
  unfold DOM.current_value. rewrite (Hsame r' Ht).
  now apply capped_ratio_monotone.
Qed.

Lemma progress_bar_ends_witness :
  exists q : Q,
    progress_fraction (Sample.record Sample.A (lit "running") None 1 None) = Some q
    /\ (q == 1)%Q.
Proof.
  destruct (progress_bar_ends (Sample.record Sample.A (lit "running") None 1 None))
    as (q & Hq & Hfull & _).
  exists q. split; [exact Hq|]. apply Hfull. simpl. lia.
Defined.
